(** * tsConfigLoader: locating, parsing and reconciling a tsconfig.json

    A shallow embedding of
    [packages/remix-dev/compiler/utils/tsconfig/tsConfigLoader.ts].

    - JSON documents are values of [json]; an object is a finite map from
      property names to values.
    - The file system is a finite map from path strings to nodes; the loader
      threads it, together with the console, through a state-and-exception
      monad.
    - [parseTsConfig] and [walkForTsConfig] recurse without a bound in the
      source; here they take a recursion budget and answer [Timeout] when it
      is exhausted. *)

From stdpp Require Import base gmap strings list.
From Stdlib Require Import Ascii.
From Stdlib Require String.

#[local] Set Warnings "-register-all".
#[local] Open Scope list_scope.

(** ** Strings *)

Module Str.

(** [s.indexOf(needle) !== -1] *)
Fixpoint includes (needle s : string) : bool :=
  String.prefix needle s ||
  match s with
  | EmptyString => false
  | String _ r => includes needle r
  end.

Definition starts_with_slash (s : string) : bool :=
  match s with
  | String "/" _ => true
  | _ => false
  end.

Fixpoint ends_with_slash (s : string) : bool :=
  match s with
  | EmptyString => false
  | String c EmptyString => Ascii.eqb c "/"
  | String _ r => ends_with_slash r
  end.

Definition is_empty (s : string) : bool :=
  match s with
  | EmptyString => true
  | _ => false
  end.

(** No character of [s] is a slash. *)
Fixpoint slash_free (s : string) : bool :=
  match s with
  | EmptyString => true
  | String c r => negb (Ascii.eqb c "/") && slash_free r
  end.

End Str.

(** ** Node's [path] module, POSIX flavour

    [path] is a library of the runtime, not code of this file.  The
    definitions below follow [path.posix]: a path is cut at every "/" and
    the segments are pushed on a stack, "." and empty segments being dropped
    and ".." popping the previous segment. *)

Module Path.

(** The pieces of [s] between its slashes; never the empty list. *)
Fixpoint split (s : string) : list string :=
  match s with
  | EmptyString => [EmptyString]
  | String c r =>
      if Ascii.eqb c "/" then EmptyString :: split r
      else match split r with
           | seg :: segs => String c seg :: segs
           | [] => [String c EmptyString]
           end
  end.

(** Segments put back together with one "/" between neighbours. *)
Fixpoint unsplit (segs : list string) : string :=
  match segs with
  | [] => ""
  | [seg] => seg
  | seg :: rest => seg +:+ "/" +:+ unsplit rest
  end.

(** One step of [normalizeString]: [stack] holds the segments kept so
    far, the last one first. *)
Definition push_segment (allowAboveRoot : bool) (stack : list string)
    (seg : string) : list string :=
  if String.eqb seg "" || String.eqb seg "." then stack
  else if String.eqb seg ".." then
    match stack with
    | top :: below =>
        if String.eqb top ".."
        then (if allowAboveRoot then ".." :: stack else stack)
        else below
    | [] => if allowAboveRoot then [".."] else []
    end
  else seg :: stack.

Definition normalizeSegments (allowAboveRoot : bool) (segs : list string)
    : list string :=
  rev (fold_left (push_segment allowAboveRoot) segs []).

Definition normalizeString (path : string) (allowAboveRoot : bool) : string :=
  unsplit (normalizeSegments allowAboveRoot (split path)).

Definition normalize (path : string) : string :=
  if Str.is_empty path then "."
  else
    let isAbsolute := Str.starts_with_slash path in
    let trailingSeparator := Str.ends_with_slash path in
    let p := normalizeString path (negb isAbsolute) in
    if Str.is_empty p then
      if isAbsolute then "/" else if trailingSeparator then "./" else "."
    else
      let p := if trailingSeparator then p +:+ "/" else p in
      if isAbsolute then "/" +:+ p else p.

(** [path.join(...args)]: empty arguments are skipped. *)
Definition join (args : list string) : string :=
  match filter (λ a, a ≠ "") args with
  | [] => "."
  | parts => normalize (unsplit parts)
  end.

(** [drop_slashes] and [drop_name] scan a reversed path: first over the
    trailing slashes, then over the last name. *)
Fixpoint drop_slashes (r : list ascii) : list ascii :=
  match r with
  | c :: r' => if Ascii.eqb c "/" then drop_slashes r' else r
  | [] => []
  end.

Fixpoint drop_name (r : list ascii) : list ascii :=
  match r with
  | c :: r' => if Ascii.eqb c "/" then r else drop_name r'
  | [] => []
  end.

(** [path.dirname(path)].  The source scans from the end down to index 1;
    index 0 only decides whether the path has a root. *)
Definition dirname (path : string) : string :=
  match path with
  | EmptyString => "."
  | String c0 tail =>
      let hasRoot := Ascii.eqb c0 "/" in
      match drop_name (drop_slashes (rev (String.list_ascii_of_string tail))) with
      | [] => if hasRoot then "/" else "."
      | _slash :: before =>
          if hasRoot && bool_decide (before = []) then "//"
          else String c0 (String.string_of_list_ascii (rev before))
      end
  end.

Fixpoint take_name (r : list ascii) : list ascii :=
  match r with
  | c :: r' => if Ascii.eqb c "/" then [] else c :: take_name r'
  | [] => []
  end.

(** [path.basename(path)] *)
Definition basename (path : string) : string :=
  String.string_of_list_ascii
    (rev (take_name (drop_slashes (rev (String.list_ascii_of_string path))))).

(** One turn of the loop of [path.resolve], which goes through its
    arguments from the last one to the working directory and stops at the
    first absolute one. *)
Definition resolve_step (acc : string * bool) (path : string)
    : string * bool :=
  let '(resolvedPath, resolvedAbsolute) := acc in
  if resolvedAbsolute || Str.is_empty path then acc
  else (path +:+ "/" +:+ resolvedPath, Str.starts_with_slash path).

(** [path.resolve(p)] for a process whose working directory is [pwd]. *)
Definition resolve (pwd p : string) : string :=
  let '(resolvedPath, resolvedAbsolute) :=
    fold_left resolve_step [p; pwd] ("", false) in
  let resolvedPath := normalizeString resolvedPath (negb resolvedAbsolute) in
  if resolvedAbsolute then "/" +:+ resolvedPath
  else if Str.is_empty resolvedPath then "." else resolvedPath.

End Path.

(** ** JSON values and configuration documents

    A number is kept by its integer value; the loader looks at a number
    only to see whether it is zero.  The order of the properties of an
    object, which only shows in the text [JSON.stringify] prints, is not
    kept. *)

Inductive json : Type :=
| JNull
| JBool (b : bool)
| JNum (n : Z)
| JStr (s : string)
| JArr (items : list json)
| JObj (fields : gmap string json).

(** What [if (v)] makes of a value. *)
Definition truthy (v : json) : bool :=
  match v with
  | JNull => false
  | JBool b => b
  | JNum n => negb (n =? 0)%Z
  | JStr s => negb (Str.is_empty s)
  | JArr _ | JObj _ => true
  end.

(** [a === b] where [a] is a literal of the policy table.  [None] stands
    for [undefined].  Arrays and objects are equal only to themselves, and a
    literal built by this call is no value of the document. *)
Definition strict_equal (a b : option json) : bool :=
  match a, b with
  | None, None => true
  | Some JNull, Some JNull => true
  | Some (JBool x), Some (JBool y) => Bool.eqb x y
  | Some (JNum x), Some (JNum y) => (x =? y)%Z
  | Some (JStr x), Some (JStr y) => String.eqb x y
  | _, _ => false
  end.

(** [interface TsConfig]: [compilerOptions], when present, is an object
    ([None] is a document without the property); [props] holds every other
    top-level property ([extends], [include] and whatever else the document
    carries). *)
Record TsConfig : Type := mkTsConfig {
  compilerOptions : option (gmap string json);
  props : gmap string json;
}.

(** The object literal [{}]. *)
Definition emptyConfig : TsConfig :=
  {| compilerOptions := None; props := ∅ |}.

(** [key in config].  None of the keys the loader asks for is a property of
    [Object.prototype]. *)
Definition has_property (config : TsConfig) (key : string) : bool :=
  bool_decide (is_Some (props config !! key))
  || (String.eqb key "compilerOptions"
      && bool_decide (is_Some (compilerOptions config))).

Record TsConfigLoaderResult : Type := mkLoaderResult {
  tsConfigPath : option string;
  baseUrl : option json;
  paths : option json;
}.

(** ** Results and the file system *)

Inductive error : Type :=
| TypeError      (* a property of undefined, or a path that is no string *)
| SyntaxError    (* JSON5.parse *)
| ENOENT
| EISDIR.

Inductive result (A : Type) : Type :=
| Ok (a : A)
| Throw (e : error)
| Timeout.
Arguments Ok {A} a.
Arguments Throw {A} e.
Arguments Timeout {A}.

#[global] Instance result_ret : MRet result := λ A a, Ok a.
#[global] Instance result_bind : MBind result := λ A B f m,
  match m with
  | Ok a => f a
  | Throw e => Throw e
  | Timeout => Timeout
  end.

(** What [JSON5.parse(stripBom(text))] makes of a file's text. *)
Inductive content : Type :=
| Doc (config : TsConfig)
| Malformed.

Inductive node : Type :=
| Dir
| File (c : content).

Definition existsSync (disk : gmap string node) (path : string) : bool :=
  bool_decide (is_Some (disk !! path)).

(** [JSON5.parse(stripBom(readFileSync(path)))] *)
Definition readConfig (disk : gmap string node) (path : string)
    : result TsConfig :=
  match disk !! path with
  | Some (File (Doc config)) => Ok config
  | Some (File Malformed) => Throw SyntaxError
  | Some Dir => Throw EISDIR
  | None => Throw ENOENT
  end.

(** ** [walkForTsConfig] *)

Fixpoint walkForTsConfig (fuel : nat) (disk : gmap string node)
    (directory : string) : result (option string) :=
  match fuel with
  | 0 => Timeout
  | S fuel =>
      let configPath := Path.join [directory; "./tsconfig.json"] in
      if existsSync disk configPath then Ok (Some configPath)
      else
        let configPath := Path.join [directory; "./jsconfig.json"] in
        if existsSync disk configPath then Ok (Some configPath)
        else
          let parentDirectory := Path.join [directory; "../"] in
          if String.eqb directory parentDirectory then Ok None
          else walkForTsConfig fuel disk parentDirectory
  end.

(** ** [parseTsConfig] *)

(** Lines 114-119: the reference gets a ".json" suffix unless ".json"
    occurs in it. *)
Definition withJsonSuffix (extendedConfig : string) : string :=
  if negb (Str.includes ".json" extendedConfig)
  then extendedConfig +:+ ".json"
  else extendedConfig.

(** Lines 120-132: the file the reference stands for, next to the
    configuration or under its [node_modules]. *)
Definition extendedConfigPath (disk : gmap string node)
    (configFilePath extendedConfig : string) : string :=
  let currentDir := Path.dirname configFilePath in
  let extendedConfigPath := Path.join [currentDir; extendedConfig] in
  if Str.includes "/" extendedConfig
     && Str.includes "." extendedConfig
     && negb (existsSync disk extendedConfigPath)
  then Path.join [currentDir; "node_modules"; extendedConfig]
  else extendedConfigPath.

(** Lines 139-145: [baseUrl] of the base becomes relative to the
    configuration that extends it.  [path.join] throws on an argument that
    is no string. *)
Definition rebaseBaseUrl (extendedConfig : string) (base : TsConfig)
    : result TsConfig :=
  match compilerOptions base with
  | Some options =>
      match options !! "baseUrl" with
      | Some url =>
          if truthy url then
            match url with
            | JStr url =>
                let extendsDir := Path.dirname extendedConfig in
                Ok {| compilerOptions :=
                        Some (<["baseUrl" := JStr (Path.join [extendsDir; url])]>
                                options);
                      props := props base |}
            | _ => Throw TypeError
            end
          else Ok base
      | None => Ok base
      end
  | None => Ok base
  end.

(** [{...a}] of an object that may be undefined. *)
Definition spread (o : option (gmap string json)) : gmap string json :=
  default ∅ o.

(** Lines 147-154: later spreads win, so the configuration's own properties
    come first in the left-biased union. *)
Definition mergeConfig (base config : TsConfig) : TsConfig :=
  {| compilerOptions :=
       Some (spread (compilerOptions config) ∪ spread (compilerOptions base));
     props := props config ∪ props base |}.

Fixpoint parseTsConfig (fuel : nat) (disk : gmap string node)
    (configFilePath : string) : result (option TsConfig) :=
  match fuel with
  | 0 => Timeout
  | S fuel =>
      if negb (existsSync disk configFilePath) then Ok None
      else
        config ← readConfig disk configFilePath;
        match props config !! "extends" with
        | Some extendedConfig =>
            if truthy extendedConfig then
              match extendedConfig with
              | JStr extendedConfig =>
                  let extendedConfig := withJsonSuffix extendedConfig in
                  let path := extendedConfigPath disk configFilePath extendedConfig in
                  parsed ← parseTsConfig fuel disk path;
                  let base := default emptyConfig parsed in
                  base ← rebaseBaseUrl extendedConfig base;
                  Ok (Some (mergeConfig base config))
              | _ => Throw TypeError
              end
            else Ok (Some config)
        | None => Ok (Some config)
        end
  end.

(** ** The policy table *)

Inductive DesiredOption : Type :=
| Suggested (suggested : json)
| Required (value : json) (reason : string).

(** [getDesiredCompilerOptions], in the order [Object.keys] lists it. *)
Definition getDesiredCompilerOptions : list (string * DesiredOption) :=
  [ ("target", Suggested (JStr "ES2019"));
    ("lib", Suggested (JArr [JStr "DOM"; JStr "DOM.Iterable"; JStr "ES2019"]));
    ("allowJs", Suggested (JBool true));
    ("strict", Suggested (JBool true));
    ("baseUrl", Suggested (JStr "."));
    ("forceConsistentCasingInFileNames", Suggested (JBool true));
    ("esModuleInterop", Required (JBool true) "requirement for esbuild");
    ("isolatedModules", Required (JBool true) "requirement for esbuild");
    ("jsx", Required (JStr "react-jsx") "requirement for esbuild");
    ("moduleResolution", Required (JStr "node") "to match esbuild");
    ("resolveJsonModule", Required (JBool true) "to match esbuild");
    ("noEmit", Required (JBool true)
       "Remix takes care of building everything in `remix build`.") ].

(** ** [writeConfigurationDefaults] and [loadSync]

    A [World] is what outlives a call: the files, the paths written so far
    (oldest first) and the lines printed on the console.  During a call to
    [writeConfigurationDefaults] the configuration object is mutated in
    place; a [Frame] holds it together with the two local lists of notes
    and the world, so that a call is a function from frames to frames.  An
    exception leaves the frame as it was when thrown. *)

Record World : Type := mkWorld {
  files : gmap string node;
  written : list string;
  output : list string;
}.

Record Frame : Type := mkFrame {
  config : TsConfig;
  suggestedActions : list string;
  requiredActions : list string;
  world : World;
}.

Definition M (A : Type) : Type := Frame → result A * Frame.

#[global] Instance M_ret : MRet M := λ A a fr, (Ok a, fr).
#[global] Instance M_bind : MBind M := λ A B f m fr,
  match m fr with
  | (Ok a, fr') => f a fr'
  | (Throw e, fr') => (Throw e, fr')
  | (Timeout, fr') => (Timeout, fr')
  end.

Definition get : M Frame := λ fr, (Ok fr, fr).
Definition put (fr : Frame) : M unit := λ _, (Ok (), fr).
Definition throw {A} (e : error) : M A := λ fr, (Throw e, fr).

Definition for_each {A} (f : A → M unit) : list A → M unit :=
  fix go l :=
    match l with
    | [] => mret ()
    | x :: l' => f x ;; go l'
    end.

Definition when (b : bool) (m : M unit) : M unit :=
  if b then m else mret ().

(** [config.compilerOptions[key]]; reading a property of [undefined]
    throws. *)
Definition readOption (key : string) : M (option json) :=
  fr ← get;
  match compilerOptions (config fr) with
  | Some options => mret (options !! key)
  | None => throw TypeError
  end.

(** [config.compilerOptions[key] = value] *)
Definition writeOption (key : string) (value : json) : M unit :=
  fr ← get;
  match compilerOptions (config fr) with
  | Some options =>
      put (mkFrame
             (mkTsConfig (Some (<[key := value]> options)) (props (config fr)))
             (suggestedActions fr) (requiredActions fr) (world fr))
  | None => throw TypeError
  end.

(** [config[key] = value] for a top-level key other than
    [compilerOptions]. *)
Definition writeProp (key : string) (value : json) : M unit :=
  fr ← get;
  put (mkFrame
         (mkTsConfig (compilerOptions (config fr))
                     (<[key := value]> (props (config fr))))
         (suggestedActions fr) (requiredActions fr) (world fr)).

Definition pushSuggested (note : string) : M unit :=
  fr ← get;
  put (mkFrame (config fr) (suggestedActions fr ++ [note])
               (requiredActions fr) (world fr)).

Definition pushRequired (note : string) : M unit :=
  fr ← get;
  put (mkFrame (config fr) (suggestedActions fr)
               (requiredActions fr ++ [note]) (world fr)).

(** [let suggestedActions = []; let requiredActions = [];] *)
Definition clearActions : M unit :=
  fr ← get;
  put (mkFrame (config fr) [] [] (world fr)).

(** [fs.writeFileSync(path, JSON.stringify(config, null, 2))]: from now on
    the file parses to [config]. *)
Definition writeFileSync (path : string) : M unit :=
  fr ← get;
  put (mkFrame (config fr) (suggestedActions fr) (requiredActions fr)
         (mkWorld (<[path := File (Doc (config fr))]> (files (world fr)))
                  (written (world fr) ++ [path])
                  (output (world fr)))).

(** [console.log(line)] *)
Definition log (line : string) : M unit :=
  fr ← get;
  put (mkFrame (config fr) (suggestedActions fr) (requiredActions fr)
         (mkWorld (files (world fr)) (written (world fr))
                  (output (world fr) ++ [line]))).

Definition quote : string := String "034" "".
Definition tab : string := String "009" "".
Definition newline : string := String "010" "".

Section Loader.

(** [colors.blue] and [colors.bold] of [../../../colors], and the working
    directory of the process, which [path.resolve] reads. *)
Variable blue : string → string.
Variable bold : json → string.
Variable pwd : string.

Definition suggestedNote (optionKey : string) (suggested : json) : string :=
  blue optionKey +:+ " was set to " +:+ bold suggested.

Definition requiredNote (optionKey : string) (value : json)
    (reason : string) : string :=
  blue optionKey +:+ " was set to " +:+ bold value
    +:+ " (" +:+ reason +:+ ")".

(** The body of the loop over the policy table (lines 211-235). *)
Definition checkOption (entry : string * DesiredOption) : M unit :=
  let '(optionKey, check) := entry in
  match check with
  | Suggested suggested =>
      fr ← get;
      when (negb (has_property (config fr) optionKey)) (
        optionValue ← readOption optionKey;
        when (strict_equal None optionValue) (
          (* [optionValue = check.suggested] assigns the local only *)
          let optionValue := Some suggested in
          pushSuggested (suggestedNote optionKey suggested)))
  | Required value reason =>
      optionValue ← readOption optionKey;
      when (negb (strict_equal (Some value) optionValue)) (
        writeOption optionKey value ;;
        pushRequired (requiredNote optionKey value reason))
  end.

Definition includeDefault : json :=
  JArr [JStr "remix.env.d.ts"; JStr "**/*.ts"; JStr "**/*.tsx"].

Definition includeNote : string :=
  blue "include" +:+ " was set to "
    +:+ bold (JStr "['remix.env.d.ts', '**/*.ts', '**/*.tsx']").

(** Lines 238-245. *)
Definition defaultInclude : M unit :=
  fr ← get;
  when (negb (has_property (config fr) "include")) (
    writeProp "include" includeDefault ;;
    pushSuggested includeNote).

(** Lines 253-275: what is printed once the file is written. *)
Definition report (configType : string) : M unit :=
  fr ← get;
  when (negb (length (suggestedActions fr) =? 0)) (
    log ("The following suggested values were added to your "
           +:+ blue (quote +:+ configType +:+ quote)
           +:+ ". These values " +:+ bold (JStr "can be changed")
           +:+ " to fit your project's needs:" +:+ newline) ;;
    for_each (λ action, log (tab +:+ "- " +:+ action))
             (suggestedActions fr) ;;
    log "") ;;
  when (negb (length (requiredActions fr) =? 0)) (
    log ("The following " +:+ bold (JStr "mandatory changes")
           +:+ " were made to your " +:+ blue configType
           +:+ ":" +:+ newline) ;;
    for_each (λ action, log (tab +:+ "- " +:+ action))
             (requiredActions fr) ;;
    log "").

(** Lines 247-251 and the report. *)
Definition persist (configPath configType : string) : M unit :=
  fr ← get;
  if (length (suggestedActions fr) <? 1) && (length (requiredActions fr) <? 1)
  then mret ()
  else writeFileSync configPath ;; report configType.

Definition writeConfigurationDefaults (configPath : string) : M unit :=
  let configType := Path.basename configPath in
  clearActions ;;
  for_each checkOption getDesiredCompilerOptions ;;
  defaultInclude ;;
  persist configPath configType.

Definition resolveConfigPath (fuel : nat) (w : World) (cwd : string)
    : result (option string) :=
  match files w !! cwd with
  | None => Throw ENOENT
  | Some (File _) => Ok (Some (Path.resolve pwd cwd))
  | Some Dir =>
      configAbsolutePath ← walkForTsConfig fuel (files w) cwd;
      match configAbsolutePath with
      | Some p =>
          if Str.is_empty p then Ok None else Ok (Some (Path.resolve pwd p))
      | None => Ok None
      end
  end.

Definition noConfig : TsConfigLoaderResult :=
  {| tsConfigPath := None; baseUrl := None; paths := None |}.

Definition loadSync (fuel : nat) (cwd : string) (w : World)
    : result TsConfigLoaderResult * World :=
  match resolveConfigPath fuel w cwd with
  | Ok (Some configPath) =>
      if Str.is_empty configPath then (Ok noConfig, w)
      else
        match parseTsConfig fuel (files w) configPath with
        | Ok (Some cfg) =>
            let '(r, fr) :=
              writeConfigurationDefaults configPath (mkFrame cfg [] [] w) in
            match r with
            | Ok _ =>
                (Ok {| tsConfigPath := Some configPath;
                       baseUrl := options ← compilerOptions (config fr);
                                  options !! "baseUrl";
                       paths := options ← compilerOptions (config fr);
                                options !! "paths" |}, world fr)
            | Throw e => (Throw e, world fr)
            | Timeout => (Timeout, world fr)
            end
        | Ok None =>
            (* [optionKey in undefined] *)
            (Throw TypeError, w)
        | Throw e => (Throw e, w)
        | Timeout => (Timeout, w)
        end
  | Ok None => (Ok noConfig, w)
  | Throw e => (Throw e, w)
  | Timeout => (Timeout, w)
  end.

Definition tsConfigLoader (fuel : nat) (cwd : string) (w : World)
    : result TsConfigLoaderResult * World :=
  let loadResult := loadSync fuel cwd w in
  loadResult.

End Loader.

(** ** Vocabulary of the statements *)

(** The directory [walkForTsConfig] moves to, and the [n]-th directory of
    the walk that starts at [directory]. *)
Definition parentDirectory (directory : string) : string :=
  Path.join [directory; "../"].

Definition ancestor (n : nat) (directory : string) : string :=
  Nat.iter n parentDirectory directory.

(** The configuration file [walkForTsConfig] picks in one directory. *)
Definition configAt (disk : gmap string node) (directory : string)
    : option string :=
  if existsSync disk (Path.join [directory; "./tsconfig.json"])
  then Some (Path.join [directory; "./tsconfig.json"])
  else if existsSync disk (Path.join [directory; "./jsconfig.json"])
  then Some (Path.join [directory; "./jsconfig.json"])
  else None.

(** A name of a directory entry: not empty, not "." or "..", no slash. *)
Definition is_name (seg : string) : Prop :=
  seg ≠ "" ∧ seg ≠ "." ∧ seg ≠ ".." ∧ Str.slash_free seg = true.

(** The absolute directory made of the names [segs], as [path.join]
    prints it when its last argument ends in a slash. *)
Definition rooted (segs : list string) : string :=
  match segs with
  | [] => "/"
  | _ => "/" +:+ Path.unsplit segs +:+ "/"
  end.

(** [n] steps up from the working directory: "../../" for [n = 2]. *)
Definition ups (n : nat) : string :=
  Path.unsplit (replicate n "..") +:+ "/".


(** [s] occurs in [t]. *)
Definition occurs_in (s t : string) : Prop :=
  ∃ before after, t = before +:+ s +:+ after.

(** Lookup in [{...base, ...own}]. *)
Definition inherited (own base : gmap string json) (key : string)
    : option json :=
  match own !! key with
  | Some v => Some v
  | None => base !! key
  end.

(** A configuration meets the policy table. *)
Definition meetsPolicy (options : gmap string json) : Prop :=
  ∀ key check, (key, check) ∈ getDesiredCompilerOptions →
    match check with
    | Suggested _ => is_Some (options !! key)
    | Required value _ => options !! key = Some value
    end.

(** The loop works on [compilerOptions] only: [props] and the world stay,
    notes are only added, and an option stays as it is unless a [Required]
    entry is about it. *)
Definition kept (ps : gmap string json) (w : World) (key : string)
    (was : option json) (suggestions changes : list string) (fr : Frame)
    : Prop :=
  ∃ options sa ra,
    fr = mkFrame (mkTsConfig (Some options) ps) sa ra w
    ∧ options !! key = was
    ∧ suggestions ⊆ sa
    ∧ changes ⊆ ra.

(** The names left of an absolute directory once its last one is dropped. *)
Definition climb (directory : string) : list string :=
  rev (tail (fold_left (Path.push_segment false) (Path.split directory) [])).

(** The options the table requires, as an object. *)
Definition requiredOf (table : list (string * DesiredOption))
    : gmap string json :=
  list_to_map
    (omap (λ entry, match entry.2 with
                    | Required value _ => Some (entry.1, value)
                    | Suggested _ => None
                    end) table).

Definition requiredOptions : gmap string json :=
  requiredOf getDesiredCompilerOptions.

(** The notes a call owes: one for each suggested option that is neither a
    top-level property nor defined in [compilerOptions], one for each
    required option that has not the required value; in the order of the
    table. *)
Definition pendingSuggestions (blue : string → string) (bold : json → string)
    (ps options : gmap string json) (table : list (string * DesiredOption))
    : list string :=
  omap (λ entry,
          match entry.2 with
          | Suggested suggested =>
              if negb (has_property (mkTsConfig (Some options) ps) entry.1)
                 && strict_equal None (options !! entry.1)
              then Some (suggestedNote blue bold entry.1 suggested)
              else None
          | Required _ _ => None
          end) table.

Definition pendingChanges (blue : string → string) (bold : json → string)
    (options : gmap string json) (table : list (string * DesiredOption))
    : list string :=
  omap (λ entry,
          match entry.2 with
          | Required value reason =>
              if strict_equal (Some value) (options !! entry.1) then None
              else Some (requiredNote blue bold entry.1 value reason)
          | Suggested _ => None
          end) table.

(** The top-level properties after a call. *)
Definition withInclude (ps : gmap string json) : gmap string json :=
  if bool_decide (is_Some (ps !! "include")) then ps
  else <["include" := includeDefault]> ps.

(** The suggestion notes after a call. *)
Definition allSuggestions (blue : string → string) (bold : json → string)
    (ps options : gmap string json) : list string :=
  pendingSuggestions blue bold ps options getDesiredCompilerOptions
  ++ (if bool_decide (is_Some (ps !! "include")) then []
      else [includeNote blue bold]).

(** A note as the console shows it. *)
Definition bullet (note : string) : string := tab +:+ "- " +:+ note.

(** ** Sample data *)

Definition plain (s : string) : string := s.

Definition display (v : json) : string :=
  match v with
  | JNull => "null"
  | JBool true => "true"
  | JBool false => "false"
  | JNum _ => "number"
  | JStr s => s
  | JArr _ => "array"
  | JObj _ => "object"
  end.

Definition emptyWorld : World := mkWorld ∅ [] [].

(** [{ "compilerOptions": {} }] *)
Definition bareConfig : TsConfig := mkTsConfig (Some ∅) ∅.


(** A configuration that meets every entry of the policy table and has
    [include]. *)
Definition settledOptions : gmap string json :=
  list_to_map
    [ ("target", JStr "ES2022"); ("lib", JArr [JStr "DOM"]);
      ("allowJs", JBool false); ("strict", JBool true);
      ("baseUrl", JStr "."); ("forceConsistentCasingInFileNames", JNull);
      ("esModuleInterop", JBool true); ("isolatedModules", JBool true);
      ("jsx", JStr "react-jsx"); ("moduleResolution", JStr "node");
      ("resolveJsonModule", JBool true); ("noEmit", JBool true) ].

Definition settledConfig : TsConfig :=
  mkTsConfig (Some settledOptions) {[ "include" := JArr [JStr "app"] ]}.

(** A directory tree with nothing but its root. *)
Definition rootOnly : World := mkWorld {[ "/" := Dir ]} [] [].

(** [{ "extends": "./shared/base", "compilerOptions": {} }] next to a base
    whose [baseUrl] is the empty string. *)
Definition sharedDisk : gmap string node :=
  {[ "/app/tsconfig.json" :=
       File (Doc (mkTsConfig (Some ∅) {[ "extends" := JStr "./shared/base" ]}));
     "/app/shared/base.json" :=
       File (Doc (mkTsConfig (Some {[ "baseUrl" := JStr "" ]}) ∅)) ]}.

(** The same with [baseUrl] "./lib" in the base. *)
Definition libDisk : gmap string node :=
  {[ "/app/tsconfig.json" :=
       File (Doc (mkTsConfig (Some ∅) {[ "extends" := JStr "./shared/base" ]}));
     "/app/shared/base.json" :=
       File (Doc (mkTsConfig (Some {[ "baseUrl" := JStr "./lib" ]}) ∅)) ]}.

(** A configuration that extends a file that is not there. *)
Definition orphanConfig : TsConfig :=
  mkTsConfig (Some {[ "strict" := JBool true ]})
             {[ "extends" := JStr "./missing"; "files" := JArr [] ]}.

Definition orphanDisk : gmap string node :=
  {[ "/app/tsconfig.json" := File (Doc orphanConfig) ]}.

(** A project with both configuration files in [/app]. *)
Definition nestedDisk : gmap string node :=
  {[ "/app" := Dir; "/app/src" := Dir; "/app/src/routes" := Dir;
     "/app/tsconfig.json" := File (Doc bareConfig);
     "/app/jsconfig.json" := File (Doc bareConfig) ]}.

(** A configuration that extends itself. *)
Definition loopDisk : gmap string node :=
  {[ "/app/tsconfig.json" :=
       File (Doc (mkTsConfig (Some ∅) {[ "extends" := JStr "./tsconfig" ]})) ]}.

(** A configuration whose base is no JSON. *)
Definition brokenBaseDisk : gmap string node :=
  {[ "/app/tsconfig.json" :=
       File (Doc (mkTsConfig (Some ∅) {[ "extends" := JStr "./base" ]}));
     "/app/base.json" := File Malformed ]}.

(** [{ "extends": 1 }] *)
Definition numericExtendsDisk : gmap string node :=
  {[ "/app/tsconfig.json" :=
       File (Doc (mkTsConfig None {[ "extends" := JNum 1 ]})) ]}.

(** [{ "extends": "", "compilerOptions": {} }] *)
Definition emptyExtendsConfig : TsConfig :=
  mkTsConfig (Some ∅) {[ "extends" := JStr "" ]}.

Definition emptyExtendsDisk : gmap string node :=
  {[ "/app/tsconfig.json" := File (Doc emptyExtendsConfig) ]}.


(** A project whose [tsconfig.json] sets [baseUrl] and [paths]. *)
Definition aliasOptions : gmap string json :=
  {[ "baseUrl" := JStr "./app";
     "paths" := JObj {[ "~/*" := JArr [JStr "./*"] ]} ]}.

Definition aliasProject : World :=
  mkWorld {[ "/app" := Dir;
             "/app/tsconfig.json" := File (Doc (mkTsConfig (Some aliasOptions) ∅)) ]}
          [] [].

(** A project whose [tsconfig.json] is the empty object. *)
Definition emptyObjectProject : World :=
  mkWorld {[ "/app" := Dir; "/app/tsconfig.json" := File (Doc emptyConfig) ]}
          [] [].

(** Three levels: the configuration extends [./shared/base], which
    extends [./presets/root], which sets [baseUrl]. *)
Definition chainDisk : gmap string node :=
  {[ "/app/tsconfig.json" :=
       File (Doc (mkTsConfig (Some ∅) {[ "extends" := JStr "./shared/base" ]}));
     "/app/shared/base.json" :=
       File (Doc (mkTsConfig None {[ "extends" := JStr "./presets/root" ]}));
     "/app/shared/presets/root.json" :=
       File (Doc (mkTsConfig (Some {[ "baseUrl" := JStr "./lib" ]}) ∅)) ]}.

(** A project whose configuration extends a base with [baseUrl]. *)
Definition libProject : World :=
  mkWorld (<["/app" := Dir]> libDisk) [] [].

(** * Reconciling a configuration with the policy table *)

Section Reconcile.

Variable blue : string → string.
Variable bold : json → string.

Lemma strict_equal_true a b : strict_equal a b = true → a = b.
Proof.
  destruct a as [[]|], b as [[]|]; simpl; try discriminate; try done.
  - intros H. apply Bool.eqb_prop in H. by subst.
  - intros H. apply Z.eqb_eq in H. by subst.
  - intros H. apply String.eqb_eq in H. by subst.
Qed.

Lemma strict_equal_undefined b : strict_equal None b = true ↔ b = None.
Proof. destruct b as [[]|]; simpl; split; congruence. Qed.

(** What one turn of the loop does to a configuration that has
    [compilerOptions]. *)
Lemma checkOption_suggested key suggested options ps sa ra w :
  checkOption blue bold (key, Suggested suggested)
    (mkFrame (mkTsConfig (Some options) ps) sa ra w)
  = (Ok (),
     mkFrame (mkTsConfig (Some options) ps)
       (if negb (has_property (mkTsConfig (Some options) ps) key)
           && strict_equal None (options !! key)
        then sa ++ [suggestedNote blue bold key suggested] else sa)
       ra w).
Proof.
  unfold checkOption, readOption, pushSuggested, when, get, put,
    mbind, M_bind, mret, M_ret; cbn -[strict_equal has_property].
  destruct (has_property _ _); cbn -[strict_equal]; [done|].
  by destruct (strict_equal None (options !! key)).
Qed.

Lemma checkOption_required key value reason options ps sa ra w :
  checkOption blue bold (key, Required value reason)
    (mkFrame (mkTsConfig (Some options) ps) sa ra w)
  = (Ok (),
     if strict_equal (Some value) (options !! key)
     then mkFrame (mkTsConfig (Some options) ps) sa ra w
     else mkFrame (mkTsConfig (Some (<[key := value]> options)) ps) sa
            (ra ++ [requiredNote blue bold key value reason]) w).
Proof.
  unfold checkOption, readOption, writeOption, pushRequired, when, get,
    put, mbind, M_bind, mret, M_ret; cbn -[strict_equal].
  by destruct (strict_equal (Some value) (options !! key)).
Qed.

(** The loop rule: an invariant kept by every turn is kept by the loop,
    and the loop returns. *)
Lemma for_each_invariant {A} (f : A → M unit) (I : Frame → Prop) l :
  (∀ x fr, x ∈ l → I fr → ∃ fr', f x fr = (Ok (), fr') ∧ I fr') →
  ∀ fr, I fr → ∃ fr', for_each f l fr = (Ok (), fr') ∧ I fr'.
Proof.
  induction l as [|x l IH]; intros Hf fr HI.
  - by exists fr.
  - destruct (Hf x fr) as (fr1 & Hx & HI1); [left | done |].
    destruct IH with (fr := fr1) as (fr2 & Hl & HI2); [|done|].
    { intros y fr' Hy. apply Hf. by right. }
    exists fr2. split; [|done].
    simpl. unfold mbind, M_bind. by rewrite Hx.
Qed.

Lemma for_each_app {A} (f : A → M unit) l1 l2 fr fr1 :
  for_each f l1 fr = (Ok (), fr1) →
  for_each f (l1 ++ l2) fr = for_each f l2 fr1.
Proof.
  revert fr. induction l1 as [|x l1 IH]; intros fr; simpl.
  - unfold mret, M_ret. by intros [= ->].
  - unfold mbind, M_bind. destruct (f x fr) as [[[]| |] fr'] eqn:E;
      try discriminate. apply IH.
Qed.

Lemma bind_run {A B} (m : M A) (f : A → M B) fr a fr' :
  m fr = (Ok a, fr') → (m ≫= f) fr = f a fr'.
Proof. intros H. unfold mbind, M_bind. by rewrite H. Qed.

Lemma bind_throw {A B} (m : M A) (f : A → M B) fr e fr' :
  m fr = (Throw e, fr') → (m ≫= f) fr = (Throw e, fr').
Proof. intros H. unfold mbind, M_bind. by rewrite H. Qed.

Lemma log_run line cfg sa ra fs wr out :
  log line (mkFrame cfg sa ra (mkWorld fs wr out))
  = (Ok (), mkFrame cfg sa ra (mkWorld fs wr (out ++ [line]))).
Proof. reflexivity. Qed.

(** Printing lines only touches the console. *)
Lemma for_each_log (g : string → string) lines cfg sa ra fs wr out :
  for_each (λ action, log (g action)) lines
    (mkFrame cfg sa ra (mkWorld fs wr out))
  = (Ok (), mkFrame cfg sa ra (mkWorld fs wr (out ++ (g <$> lines)))).
Proof.
  revert out. induction lines as [|x lines IH]; intros out; simpl.
  - by rewrite app_nil_r.
  - erewrite bind_run by apply log_run.
    rewrite IH. by rewrite <- app_assoc.
Qed.

Lemma defaultInclude_run cfg sa ra w :
  defaultInclude blue bold (mkFrame cfg sa ra w)
  = (Ok (),
     if has_property cfg "include" then mkFrame cfg sa ra w
     else mkFrame
            (mkTsConfig (compilerOptions cfg)
               (<["include" := includeDefault]> (props cfg)))
            (sa ++ [includeNote blue bold]) ra w).
Proof.
  unfold defaultInclude, writeProp, pushSuggested, when, get, put, mbind,
    M_bind, mret, M_ret; cbn -[has_property includeDefault].
  by destruct (has_property cfg "include").
Qed.

Lemma report_run configType cfg sa ra fs wr out :
  ∃ lines,
    report blue bold configType (mkFrame cfg sa ra (mkWorld fs wr out))
    = (Ok (), mkFrame cfg sa ra (mkWorld fs wr (out ++ lines))).
Proof.
  assert (Hblock : ∀ (header : string) notes out0,
    ∃ lines,
      (log header ;;
       for_each (λ action, log (tab +:+ "- " +:+ action)) notes ;;
       log "") (mkFrame cfg sa ra (mkWorld fs wr out0))
      = (Ok (), mkFrame cfg sa ra (mkWorld fs wr (out0 ++ lines)))).
  { intros header notes out0. eexists.
    erewrite bind_run by apply log_run.
    erewrite bind_run
      by apply (for_each_log (λ action, tab +:+ "- " +:+ action)).
    rewrite log_run, <- !app_assoc. reflexivity. }
  unfold report, when. erewrite bind_run by reflexivity.
  cbn [suggestedActions requiredActions].
  destruct (negb (length sa =? 0)).
  - destruct (Hblock
      ("The following suggested values were added to your "
         +:+ blue (quote +:+ configType +:+ quote)
         +:+ ". These values " +:+ bold (JStr "can be changed")
         +:+ " to fit your project's needs:" +:+ newline) sa out)
      as [l1 H1].
    erewrite bind_run by apply H1.
    destruct (negb (length ra =? 0)).
    + edestruct Hblock as [l2 ->]. exists (l1 ++ l2).
      by rewrite app_assoc.
    + by exists l1.
  - erewrite bind_run by reflexivity.
    destruct (negb (length ra =? 0)).
    + edestruct Hblock as [l2 ->]. by exists l2.
    + exists []. by rewrite app_nil_r.
Qed.

Lemma persist_quiet path configType cfg w :
  persist blue bold path configType (mkFrame cfg [] [] w)
  = (Ok (), mkFrame cfg [] [] w).
Proof. reflexivity. Qed.

Lemma persist_writes path configType cfg sa ra fs wr out :
  sa ≠ [] ∨ ra ≠ [] →
  ∃ lines,
    persist blue bold path configType
      (mkFrame cfg sa ra (mkWorld fs wr out))
    = (Ok (),
       mkFrame cfg sa ra
         (mkWorld (<[path := File (Doc cfg)]> fs) (wr ++ [path])
                  (out ++ lines))).
Proof.
  intros Hnotes. unfold persist.
  erewrite bind_run by reflexivity.
  cbn [suggestedActions requiredActions].
  assert ((length sa <? 1) && (length ra <? 1) = false) as ->.
  { destruct sa, ra; simpl; try done. by destruct Hnotes. }
  erewrite bind_run by reflexivity.
  apply report_run.
Qed.

(** The call, once the loop has returned. *)
Lemma writeConfigurationDefaults_run path cfg sa ra w fr1 :
  for_each (checkOption blue bold) getDesiredCompilerOptions
    (mkFrame cfg [] [] w) = (Ok (), fr1) →
  writeConfigurationDefaults blue bold path (mkFrame cfg sa ra w)
  = persist blue bold path (Path.basename path)
      (snd (defaultInclude blue bold fr1)).
Proof.
  intros Hloop. unfold writeConfigurationDefaults.
  erewrite bind_run by reflexivity.
  erewrite bind_run by apply Hloop.
  destruct fr1 as [cfg1 sa1 ra1 w1].
  erewrite bind_run by apply defaultInclude_run.
  by rewrite defaultInclude_run.
Qed.

Lemma policy_keys_distinct : NoDup (getDesiredCompilerOptions.*1).
Proof.
  apply (bool_decide_unpack _). by vm_compute.
Qed.

Lemma required_value_equals_itself key value reason :
  (key, Required value reason) ∈ getDesiredCompilerOptions →
  strict_equal (Some value) (Some value) = true.
Proof.
  unfold getDesiredCompilerOptions. rewrite !elem_of_cons, elem_of_nil.
  intros H. destruct_or!; simplify_eq; done.
Qed.

Lemma subseteq_snoc (notes l : list string) note :
  notes ⊆ l → notes ⊆ l ++ [note].
Proof. intros H x Hx. apply elem_of_app. left. by apply H. Qed.

Lemma checkOption_kept ps w key was suggestions changes entry fr :
  (entry.1 ≠ key ∨ ∃ suggested, entry.2 = Suggested suggested) →
  kept ps w key was suggestions changes fr →
  ∃ fr', checkOption blue bold entry fr = (Ok (), fr')
         ∧ kept ps w key was suggestions changes fr'.
Proof.
  intros Hentry (options & sa & ra & -> & Hkey & Hsa & Hra).
  destruct entry as [key' [suggested|value reason]].
  - rewrite checkOption_suggested. eexists. split; [done|].
    eexists options, _, ra. split_and!; [reflexivity|done| |done].
    case_match; [by apply subseteq_snoc | done].
  - destruct Hentry as [Hne|[? ?]]; [simpl in Hne | done].
    rewrite checkOption_required. eexists. split; [done|].
    destruct (strict_equal _ _).
    + by exists options, sa, ra.
    + eexists (<[key' := value]> options), sa, (ra ++ [_]).
      split_and!; [reflexivity| by rewrite lookup_insert_ne |done|].
      by apply subseteq_snoc.
Qed.

Lemma loop_kept ps w key was suggestions changes table fr :
  (∀ entry, entry ∈ table →
     entry.1 ≠ key ∨ ∃ suggested, entry.2 = Suggested suggested) →
  kept ps w key was suggestions changes fr →
  ∃ fr', for_each (checkOption blue bold) table fr = (Ok (), fr')
         ∧ kept ps w key was suggestions changes fr'.
Proof.
  intros Htable. apply for_each_invariant.
  intros entry fr0 Hin. apply checkOption_kept. by apply Htable.
Qed.

(** The table around one of its entries. *)
Lemma policy_split key check :
  (key, check) ∈ getDesiredCompilerOptions →
  ∃ before after,
    getDesiredCompilerOptions = before ++ (key, check) :: after
    ∧ (∀ entry, entry ∈ before → entry.1 ≠ key)
    ∧ (∀ entry, entry ∈ after → entry.1 ≠ key).
Proof.
  intros Hin. apply list_elem_of_split in Hin as (before & after & Heq).
  exists before, after. split; [done|].
  pose proof policy_keys_distinct as Hnd. rewrite Heq in Hnd.
  rewrite fmap_app, fmap_cons in Hnd. simpl in Hnd.
  apply NoDup_app in Hnd as (_ & Hbefore & Hafter).
  apply NoDup_cons in Hafter as [Hafter _].
  split; intros entry Hentry Hsame.
  - apply (Hbefore entry.1); [by apply list_elem_of_fmap_2 |].
    rewrite Hsame. by left.
  - apply Hafter. rewrite <- Hsame. by apply list_elem_of_fmap_2.
Qed.

(** The loop, for a configuration with [compilerOptions], seen from one
    entry of the table. *)
Lemma loop_around key check options ps w :
  (key, check) ∈ getDesiredCompilerOptions →
  ∃ options1 sa1 ra1 fr2,
    options1 !! key = options !! key
    ∧ checkOption blue bold (key, check)
        (mkFrame (mkTsConfig (Some options1) ps) sa1 ra1 w) = (Ok (), fr2)
    ∧ ∀ was suggestions changes,
        kept ps w key was suggestions changes fr2 →
        ∃ fr3,
          for_each (checkOption blue bold) getDesiredCompilerOptions
            (mkFrame (mkTsConfig (Some options) ps) [] [] w) = (Ok (), fr3)
          ∧ kept ps w key was suggestions changes fr3.
Proof.
  intros Hin.
  destruct (policy_split _ _ Hin) as (before & after & Heq & Hb & Ha).
  destruct (loop_kept ps w key (options !! key) [] [] before
              (mkFrame (mkTsConfig (Some options) ps) [] [] w))
    as (fr1 & Hrun1 & options1 & sa1 & ra1 & -> & Hkey1 & _).
  { intros entry Hentry. left. by apply Hb. }
  { by exists options, [], []. }
  exists options1, sa1, ra1.
  destruct check as [suggested|value reason].
  - eexists. split; [done|]. split; [apply checkOption_suggested|].
    intros was suggestions changes Hkept.
    destruct (loop_kept ps w key was suggestions changes after _
                (λ entry Hentry, or_introl (Ha entry Hentry)) Hkept)
      as (fr3 & Hrun3 & Hkept3).
    exists fr3. split; [|done].
    rewrite Heq. erewrite for_each_app by apply Hrun1.
    simpl. erewrite bind_run by apply checkOption_suggested. done.
  - eexists. split; [done|]. split; [apply checkOption_required|].
    intros was suggestions changes Hkept.
    destruct (loop_kept ps w key was suggestions changes after _
                (λ entry Hentry, or_introl (Ha entry Hentry)) Hkept)
      as (fr3 & Hrun3 & Hkept3).
    exists fr3. split; [|done].
    rewrite Heq. erewrite for_each_app by apply Hrun1.
    simpl. erewrite bind_run by apply checkOption_required. done.
Qed.

Lemma for_each_cons {A} (f : A → M unit) x l :
  for_each f (x :: l) = (f x ;; for_each f l).
Proof. reflexivity. Qed.

Lemma checkOption_skipped key suggested cfg sa ra w :
  has_property cfg key = true →
  checkOption blue bold (key, Suggested suggested) (mkFrame cfg sa ra w)
  = (Ok (), mkFrame cfg sa ra w).
Proof.
  intros H. unfold checkOption, when, get, mbind, M_bind.
  cbn [config]. by rewrite H.
Qed.

Lemma checkOption_suggested_throws key suggested cfg sa ra w :
  compilerOptions cfg = None →
  has_property cfg key = false →
  checkOption blue bold (key, Suggested suggested) (mkFrame cfg sa ra w)
  = (Throw TypeError, mkFrame cfg sa ra w).
Proof.
  intros Hnone H. unfold checkOption, readOption, when, get, mbind, M_bind.
  cbn [config]. rewrite H. cbn [negb config]. by rewrite Hnone.
Qed.

Lemma checkOption_required_throws key value reason cfg sa ra w :
  compilerOptions cfg = None →
  checkOption blue bold (key, Required value reason) (mkFrame cfg sa ra w)
  = (Throw TypeError, mkFrame cfg sa ra w).
Proof.
  intros Hnone. unfold checkOption, readOption, when, get, mbind, M_bind.
  cbn [config]. by rewrite Hnone.
Qed.

(** Without [compilerOptions] the first entry that reads an option stops
    the loop. *)
Lemma loop_throws table cfg sa ra w :
  compilerOptions cfg = None →
  (∃ key value reason, (key, Required value reason) ∈ table) →
  for_each (checkOption blue bold) table (mkFrame cfg sa ra w)
  = (Throw TypeError, mkFrame cfg sa ra w).
Proof.
  intros Hnone. induction table as [|[key check] table IH].
  - intros (? & ? & ? & Hin). by apply elem_of_nil in Hin.
  - intros (key' & value & reason & Hin). rewrite for_each_cons.
    destruct check as [suggested|value' reason'].
    + destruct (has_property cfg key) eqn:Htop.
      * erewrite bind_run by by apply checkOption_skipped.
        apply IH. apply elem_of_cons in Hin as [[=]|Hin]. eauto.
      * apply bind_throw. by apply checkOption_suggested_throws.
    + apply bind_throw. by apply checkOption_required_throws.
Qed.

(** What a call does about a suggested option that is missing. *)
Lemma suggestion_noted_not_stored path key suggested options ps sa ra fs wr out :
  (key, Suggested suggested) ∈ getDesiredCompilerOptions →
  has_property (mkTsConfig (Some options) ps) key = false →
  options !! key = None →
  ∃ options' ps' sa' ra' out',
    writeConfigurationDefaults blue bold path
      (mkFrame (mkTsConfig (Some options) ps) sa ra (mkWorld fs wr out))
    = (Ok (),
       mkFrame (mkTsConfig (Some options') ps') sa' ra'
         (mkWorld (<[path := File (Doc (mkTsConfig (Some options') ps'))]> fs)
                  (wr ++ [path]) out'))
    ∧ suggestedNote blue bold key suggested ∈ sa'
    ∧ options' !! key = None
    ∧ has_property (mkTsConfig (Some options') ps') key = false.
Proof.
  intros Hin Htop Hmissing.
  assert (key ≠ "include") as Hinclude.
  { intros ->. revert Hin. unfold getDesiredCompilerOptions.
    rewrite !elem_of_cons, elem_of_nil. intros H. destruct_or!; simplify_eq. }
  destruct (loop_around key _ options ps (mkWorld fs wr out) Hin)
    as (options1 & sa1 & ra1 & fr2 & Hkey1 & Hentry & Hrest).
  rewrite checkOption_suggested in Hentry.
  assert (has_property (mkTsConfig (Some options1) ps) key = false) as Htop1.
  { revert Htop. unfold has_property. by cbn [props compilerOptions]. }
  rewrite Htop1, Hkey1, Hmissing in Hentry. cbn in Hentry.
  injection Hentry as <-.
  destruct (Hrest None [suggestedNote blue bold key suggested] [])
    as (fr3 & Hloop & options3 & sa3 & ra3 & -> & Hkey3 & Hsa3 & _).
  { eexists options1, _, ra1.
    split_and!; [reflexivity| congruence | |apply list_subseteq_nil].
    intros x Hx. apply elem_of_app. by right. }
  erewrite writeConfigurationDefaults_run by apply Hloop.
  rewrite defaultInclude_run.
  assert (suggestedNote blue bold key suggested ∈ sa3) as Hnote.
  { apply Hsa3. by left. }
  destruct (has_property (mkTsConfig (Some options3) ps) "include") eqn:Hinc;
    cbn [snd].
  - destruct (persist_writes path (Path.basename path)
                (mkTsConfig (Some options3) ps) sa3 ra3 fs wr out)
      as [lines Hpersist].
    { left. intros ->. by apply elem_of_nil in Hnote. }
    exists options3, ps, sa3, ra3, (out ++ lines).
    split_and!; [done..|].
    revert Htop. unfold has_property. by cbn [props compilerOptions].
  - cbn [compilerOptions props].
    destruct (persist_writes path (Path.basename path)
                (mkTsConfig (Some options3)
                   (<["include" := includeDefault]> ps))
                (sa3 ++ [includeNote blue bold]) ra3 fs wr out)
      as [lines Hpersist].
    { left. by destruct sa3. }
    exists options3, (<["include" := includeDefault]> ps),
      (sa3 ++ [includeNote blue bold]), ra3, (out ++ lines).
    split_and!; [done| |done|].
    + apply elem_of_app. by left.
    + revert Htop. unfold has_property. cbn [props compilerOptions].
      by rewrite lookup_insert_ne.
Qed.

(** C1.  The claim says that a suggested option missing from the top level
    and from [compilerOptions] is set to the suggested value.  The call
    returns and records the note "... was set to ...", but the option is
    still undefined afterwards: the suggested value is assigned to the local
    [optionValue] only. *)
Theorem C1_suggested_value_noted_but_not_stored
    path key suggested options ps sa ra w :
  (key, Suggested suggested) ∈ getDesiredCompilerOptions →
  has_property (mkTsConfig (Some options) ps) key = false →
  options !! key = None →
  ∃ fr',
    writeConfigurationDefaults blue bold path
      (mkFrame (mkTsConfig (Some options) ps) sa ra w) = (Ok (), fr')
    ∧ suggestedNote blue bold key suggested ∈ suggestedActions fr'
    ∧ ∃ options', compilerOptions (config fr') = Some options'
                  ∧ options' !! key = None.
Proof.
  intros Hin Htop Hmissing. destruct w as [fs wr out].
  destruct (suggestion_noted_not_stored path key suggested options ps sa ra
              fs wr out Hin Htop Hmissing)
    as (options' & ps' & sa' & ra' & out' & Hrun & Hnote & Hkey & _).
  eexists. split; [exact Hrun|]. split; [exact Hnote|].
  by exists options'.
Qed.

(** C2.  The claim says that a second call records nothing and writes
    nothing.  With a suggested option missing, the second call records the
    same suggestion again and writes the file a second time. *)
Theorem C2_second_call_notes_and_writes_again
    path key suggested options ps sa ra w :
  (key, Suggested suggested) ∈ getDesiredCompilerOptions →
  has_property (mkTsConfig (Some options) ps) key = false →
  options !! key = None →
  ∃ fr1 fr2,
    writeConfigurationDefaults blue bold path
      (mkFrame (mkTsConfig (Some options) ps) sa ra w) = (Ok (), fr1)
    ∧ writeConfigurationDefaults blue bold path fr1 = (Ok (), fr2)
    ∧ suggestedNote blue bold key suggested ∈ suggestedActions fr2
    ∧ written (world fr1) = written w ++ [path]
    ∧ written (world fr2) = written w ++ [path; path].
Proof.
  intros Hin Htop Hmissing. destruct w as [fs wr out].
  destruct (suggestion_noted_not_stored path key suggested options ps sa ra
              fs wr out Hin Htop Hmissing)
    as (options1 & ps1 & sa1 & ra1 & out1 & Hrun1 & _ & Hkey1 & Htop1).
  destruct (suggestion_noted_not_stored path key suggested options1 ps1
              sa1 ra1
              (<[path := File (Doc (mkTsConfig (Some options1) ps1))]> fs)
              (wr ++ [path]) out1 Hin Htop1 Hkey1)
    as (options2 & ps2 & sa2 & ra2 & out2 & Hrun2 & Hnote2 & _).
  eexists _, _. split; [exact Hrun1|]. split; [exact Hrun2|].
  cbn [suggestedActions world written]. split; [done|].
  split; [done|]. by rewrite <- app_assoc.
Qed.


(** C6.  A configuration whose [compilerOptions] meet every entry of the
    table and that has [include] comes back as it was: no note of either
    kind, no write, nothing printed. *)
Theorem C6_settled_config_is_left_alone path options ps sa ra w :
  meetsPolicy options →
  is_Some (ps !! "include") →
  writeConfigurationDefaults blue bold path
    (mkFrame (mkTsConfig (Some options) ps) sa ra w)
  = (Ok (), mkFrame (mkTsConfig (Some options) ps) [] [] w).
Proof.
  intros Hmeets Hinclude.
  destruct (for_each_invariant (checkOption blue bold)
              (λ fr, fr = mkFrame (mkTsConfig (Some options) ps) [] [] w)
              getDesiredCompilerOptions) with
    (fr := mkFrame (mkTsConfig (Some options) ps) [] [] w)
    as (fr1 & Hloop & ->); [|done|].
  { intros [key check] fr Hin ->. specialize (Hmeets key check Hin).
    destruct check as [suggested|value reason].
    - rewrite checkOption_suggested. eexists. split; [done|].
      destruct Hmeets as [v ->]. by rewrite andb_false_r.
    - rewrite checkOption_required, Hmeets.
      rewrite (required_value_equals_itself key value reason Hin).
      by eexists. }
  erewrite writeConfigurationDefaults_run by apply Hloop.
  rewrite defaultInclude_run.
  assert (has_property (mkTsConfig (Some options) ps) "include" = true) as ->.
  { unfold has_property. cbn [props]. by rewrite bool_decide_eq_true_2. }
  apply persist_quiet.
Qed.

(** C10.  On a configuration without [compilerOptions] the call throws a
    [TypeError]; the configuration, the files and the console are as they
    were. *)
Theorem C10_missing_compilerOptions_throws path cfg sa ra w :
  compilerOptions cfg = None →
  writeConfigurationDefaults blue bold path (mkFrame cfg sa ra w)
  = (Throw TypeError, mkFrame cfg [] [] w).
Proof.
  intros Hnone. unfold writeConfigurationDefaults.
  erewrite bind_run by reflexivity. cbn [config world].
  apply bind_throw. apply loop_throws; [done|].
  exists "noEmit", (JBool true),
    "Remix takes care of building everything in `remix build`.".
  unfold getDesiredCompilerOptions. rewrite !elem_of_cons. tauto.
Qed.

End Reconcile.

(** Witnesses of the reconciliation theorems. *)

Lemma C1_suggested_value_noted_but_not_stored_witness :
  ∃ fr',
    writeConfigurationDefaults plain display "/app/tsconfig.json"
      (mkFrame bareConfig [] [] emptyWorld) = (Ok (), fr')
    ∧ suggestedNote plain display "strict" (JBool true) ∈ suggestedActions fr'
    ∧ ∃ options', compilerOptions (config fr') = Some options'
                  ∧ options' !! "strict" = None.
Proof.
  apply (C1_suggested_value_noted_but_not_stored plain display
           "/app/tsconfig.json" "strict" (JBool true) ∅ ∅ [] [] emptyWorld).
  - unfold getDesiredCompilerOptions. rewrite !elem_of_cons. tauto.
  - reflexivity.
  - reflexivity.
Defined.

Lemma C2_second_call_notes_and_writes_again_witness :
  ∃ fr1 fr2,
    writeConfigurationDefaults plain display "/app/tsconfig.json"
      (mkFrame bareConfig [] [] emptyWorld) = (Ok (), fr1)
    ∧ writeConfigurationDefaults plain display "/app/tsconfig.json" fr1
      = (Ok (), fr2)
    ∧ suggestedNote plain display "strict" (JBool true) ∈ suggestedActions fr2
    ∧ written (world fr1) = ["/app/tsconfig.json"]
    ∧ written (world fr2) = ["/app/tsconfig.json"; "/app/tsconfig.json"].
Proof.
  apply (C2_second_call_notes_and_writes_again plain display
           "/app/tsconfig.json" "strict" (JBool true) ∅ ∅ [] [] emptyWorld).
  - unfold getDesiredCompilerOptions. rewrite !elem_of_cons. tauto.
  - reflexivity.
  - reflexivity.
Defined.


Lemma C6_settled_config_is_left_alone_witness :
  writeConfigurationDefaults plain display "/app/tsconfig.json"
    (mkFrame settledConfig [] [] emptyWorld)
  = (Ok (), mkFrame settledConfig [] [] emptyWorld).
Proof.
  apply (C6_settled_config_is_left_alone plain display "/app/tsconfig.json"
           settledOptions {[ "include" := JArr [JStr "app"] ]} [] []
           emptyWorld).
  - intros key check. unfold getDesiredCompilerOptions.
    rewrite !elem_of_cons, elem_of_nil.
    intros H. destruct_or!; simplify_eq; vm_compute; eauto.
  - vm_compute. eauto.
Defined.

Lemma C10_missing_compilerOptions_throws_witness :
  writeConfigurationDefaults plain display "/app/tsconfig.json"
    (mkFrame emptyConfig [] [] emptyWorld)
  = (Throw TypeError, mkFrame emptyConfig [] [] emptyWorld).
Proof.
  apply (C10_missing_compilerOptions_throws plain display
           "/app/tsconfig.json" emptyConfig [] [] emptyWorld).
  reflexivity.
Defined.

(** * The loader's result *)

(** C7.  Whenever the loader returns a result without a configuration path,
    the result has neither [baseUrl] nor [paths]. *)
Theorem C7_no_path_no_baseUrl_no_paths blue bold pwd fuel cwd w r w' :
  tsConfigLoader blue bold pwd fuel cwd w = (Ok r, w') →
  tsConfigPath r = None →
  baseUrl r = None ∧ paths r = None.
Proof.
  unfold tsConfigLoader, loadSync. intros Hrun Hpath.
  repeat case_match; simplify_eq; done.
Qed.

Lemma C7_no_path_no_baseUrl_no_paths_witness :
  tsConfigLoader plain display "/" 1 "/" rootOnly = (Ok noConfig, rootOnly)
  ∧ baseUrl noConfig = None ∧ paths noConfig = None.
Proof.
  split; [by vm_compute|].
  apply (C7_no_path_no_baseUrl_no_paths plain display "/" 1 "/" rootOnly
           noConfig rootOnly).
  - by vm_compute.
  - reflexivity.
Defined.

(** * The reference of [extends] *)

Lemma append_cons c s t : String c s +:+ t = String c (s +:+ t).
Proof. reflexivity. Qed.

Lemma append_empty t : "" +:+ t = t.
Proof. reflexivity. Qed.

Lemma prefix_occurs needle s :
  String.prefix needle s = true ↔ ∃ after, s = needle +:+ after.
Proof.
  revert needle. induction s as [|d s IH]; intros [|c needle]; simpl.
  - split; [intros _; exists ""; reflexivity | reflexivity].
  - split; [done|]. intros [after H]. rewrite append_cons in H.
    discriminate.
  - split; [intros _; exists (String d s); reflexivity | reflexivity].
  - destruct (ascii_dec c d) as [->|Hne].
    + rewrite IH. split; intros [after H]; exists after.
      * by rewrite append_cons, H.
      * rewrite append_cons in H. by injection H.
    + split; [done|]. intros [after H]. rewrite append_cons in H.
      by injection H.
Qed.

Lemma includes_empty needle :
  Str.includes needle "" = String.prefix needle "" || false.
Proof. reflexivity. Qed.

Lemma includes_cons needle c s :
  Str.includes needle (String c s)
  = String.prefix needle (String c s) || Str.includes needle s.
Proof. reflexivity. Qed.

Lemma includes_occurs needle s :
  Str.includes needle s = true ↔ occurs_in needle s.
Proof.
  split.
  - induction s as [|c s IH].
    + rewrite includes_empty, orb_false_r. intros H.
      apply prefix_occurs in H as [after H]. exists "", after.
      by rewrite append_empty.
    + rewrite includes_cons, orb_true_iff. intros [H|H].
      * apply prefix_occurs in H as [after H]. exists "", after.
        by rewrite append_empty.
      * destruct (IH H) as (before & after & ->).
        exists (String c before), after. by rewrite append_cons.
  - intros (before & after & ->).
    induction before as [|c before IH].
    + assert (String.prefix needle (needle +:+ after) = true) as H
        by (apply prefix_occurs; by exists after).
      rewrite append_empty.
      destruct (needle +:+ after).
      * by rewrite includes_empty, H.
      * by rewrite includes_cons, H.
    + rewrite append_cons, includes_cons, IH. apply orb_true_r.
Qed.

Lemma append_length s t :
  String.length (s +:+ t) = String.length s + String.length t.
Proof.
  induction s as [|c s IH]; [done|]. rewrite append_cons. simpl.
  by rewrite IH.
Qed.




(** * Parsing along [extends] *)

Lemma existsSync_true disk path n :
  disk !! path = Some n → existsSync disk path = true.
Proof. intros H. unfold existsSync. rewrite H. by apply bool_decide_eq_true_2. Qed.

Lemma truthy_string s : s ≠ "" → truthy (JStr s) = true.
Proof. by destruct s. Qed.

(** One unfolding of [parseTsConfig] at a configuration that extends
    another. *)
Lemma parseTsConfig_extends fuel disk path cfg reference :
  disk !! path = Some (File (Doc cfg)) →
  props cfg !! "extends" = Some (JStr reference) →
  reference ≠ "" →
  parseTsConfig (S fuel) disk path
  = (parsed ← parseTsConfig fuel disk
                (extendedConfigPath disk path (withJsonSuffix reference));
     base ← rebaseBaseUrl (withJsonSuffix reference)
               (default emptyConfig parsed);
     Ok (Some (mergeConfig base cfg))).
Proof.
  intros Hfile Hextends Hreference. cbn [parseTsConfig].
  rewrite (existsSync_true _ _ _ Hfile). cbn [negb].
  unfold readConfig. rewrite Hfile. cbn [mbind result_bind].
  rewrite Hextends, (truthy_string _ Hreference). reflexivity.
Qed.

Lemma parseTsConfig_missing fuel disk path :
  existsSync disk path = false → parseTsConfig (S fuel) disk path = Ok None.
Proof. intros H. cbn [parseTsConfig]. by rewrite H. Qed.

(** C5.  When the file the reference stands for does not exist, parsing
    returns the configuration merged with the empty object: its top-level
    properties are its own, and so are its compiler options (the empty
    object when it has none). *)
Theorem C5_missing_ancestor_is_empty fuel disk path cfg reference :
  disk !! path = Some (File (Doc cfg)) →
  props cfg !! "extends" = Some (JStr reference) →
  reference ≠ "" →
  existsSync disk (extendedConfigPath disk path (withJsonSuffix reference))
    = false →
  parseTsConfig (S (S fuel)) disk path
    = Ok (Some (mergeConfig emptyConfig cfg))
  ∧ props (mergeConfig emptyConfig cfg) = props cfg
  ∧ compilerOptions (mergeConfig emptyConfig cfg)
    = Some (spread (compilerOptions cfg)).
Proof.
  intros Hfile Hextends Hreference Hmissing. split_and!.
  - rewrite (parseTsConfig_extends _ _ _ _ _ Hfile Hextends Hreference).
    by rewrite (parseTsConfig_missing _ _ _ Hmissing).
  - unfold mergeConfig. cbn [props emptyConfig]. apply (right_id_L ∅ (∪)).
  - unfold mergeConfig. cbn [compilerOptions emptyConfig spread default from_option id].
    f_equal. apply (right_id_L ∅ (∪)).
Qed.

Lemma C5_missing_ancestor_is_empty_witness :
  parseTsConfig 2 orphanDisk "/app/tsconfig.json"
    = Ok (Some (mergeConfig emptyConfig orphanConfig))
  ∧ props (mergeConfig emptyConfig orphanConfig) = props orphanConfig
  ∧ compilerOptions (mergeConfig emptyConfig orphanConfig)
    = Some (spread (compilerOptions orphanConfig)).
Proof.
  apply (C5_missing_ancestor_is_empty 0 orphanDisk "/app/tsconfig.json"
           orphanConfig "./missing").
  - by vm_compute.
  - by vm_compute.
  - discriminate.
  - by vm_compute.
Defined.

Lemma lookup_merge own base key :
  (own ∪ base) !! key = inherited own base key.
Proof.
  unfold inherited. rewrite lookup_union.
  destruct (own !! key), (base !! key); done.
Qed.

(** What [rebaseBaseUrl] does to a base whose [baseUrl], if any, is a
    string. *)
Lemma rebaseBaseUrl_typed extendedConfig base :
  (∀ v, spread (compilerOptions base) !! "baseUrl" = Some v →
        ∃ url, v = JStr url) →
  ∃ base',
    rebaseBaseUrl extendedConfig base = Ok base'
    ∧ props base' = props base
    ∧ (∀ key, key ≠ "baseUrl" →
         spread (compilerOptions base') !! key
         = spread (compilerOptions base) !! key)
    ∧ (∀ url, spread (compilerOptions base) !! "baseUrl" = Some (JStr url) →
         url ≠ "" →
         spread (compilerOptions base') !! "baseUrl"
         = Some (JStr (Path.join [Path.dirname extendedConfig; url])))
    ∧ (spread (compilerOptions base) !! "baseUrl" = None →
         spread (compilerOptions base') !! "baseUrl" = None).
Proof.
  intros Htyped. unfold rebaseBaseUrl.
  destruct base as [[options|] ps];
    cbn [compilerOptions props spread default from_option id] in *.
  2:{ exists (mkTsConfig None ps).
      cbn [compilerOptions props spread default from_option id].
      split_and!; done. }
  destruct (options !! "baseUrl") as [v|] eqn:Hurl.
  2:{ exists (mkTsConfig (Some options) ps).
      cbn [compilerOptions props spread default from_option id].
      split_and!; done. }
  destruct (Htyped v eq_refl) as [url ->].
  destruct url as [|c url].
  { exists (mkTsConfig (Some options) ps).
    cbn [truthy Str.is_empty negb compilerOptions props spread default from_option id].
    split_and!; try done. by intros url [= <-]. }
  cbn [truthy Str.is_empty negb]. eexists. split; [reflexivity|].
  cbn [compilerOptions props spread default from_option id]. split_and!; try done.
  - intros key Hkey. by rewrite lookup_insert_ne.
  - intros url' [= <-] _. by rewrite lookup_insert_eq.
Qed.

(** C4, as the code has it.  When the ancestor parses (an ancestor that is
    not there counts as the empty object) and its [baseUrl], if any, is a
    string, parsing the descendant returns the merge: every top-level
    property and every compiler option is the descendant's own if it has
    one and the ancestor's otherwise; for [baseUrl] the descendant's own
    wins, and an inherited [baseUrl] that is not empty is the ancestor's,
    joined to the directory of the reference. *)
Theorem C4_descendant_merged_over_ancestor
    fuel disk path cfg reference parsed :
  disk !! path = Some (File (Doc cfg)) →
  props cfg !! "extends" = Some (JStr reference) →
  reference ≠ "" →
  parseTsConfig fuel disk
    (extendedConfigPath disk path (withJsonSuffix reference)) = Ok parsed →
  (∀ v, spread (compilerOptions (default emptyConfig parsed)) !! "baseUrl"
        = Some v → ∃ url, v = JStr url) →
  ∃ merged options,
    parseTsConfig (S fuel) disk path = Ok (Some merged)
    ∧ compilerOptions merged = Some options
    ∧ (∀ key, props merged !! key
              = inherited (props cfg)
                  (props (default emptyConfig parsed)) key)
    ∧ (∀ key, key ≠ "baseUrl" →
         options !! key
         = inherited (spread (compilerOptions cfg))
             (spread (compilerOptions (default emptyConfig parsed))) key)
    ∧ (∀ own, spread (compilerOptions cfg) !! "baseUrl" = Some own →
         options !! "baseUrl" = Some own)
    ∧ (∀ url,
         spread (compilerOptions cfg) !! "baseUrl" = None →
         spread (compilerOptions (default emptyConfig parsed)) !! "baseUrl"
           = Some (JStr url) →
         url ≠ "" →
         options !! "baseUrl"
         = Some (JStr (Path.join
                         [Path.dirname (withJsonSuffix reference); url]))).
Proof.
  intros Hfile Hextends Hreference Hparsed Htyped.
  destruct (rebaseBaseUrl_typed (withJsonSuffix reference) _ Htyped)
    as (base' & Hrebase & Hprops & Hother & Hurl & _).
  exists (mergeConfig base' cfg),
    (spread (compilerOptions cfg) ∪ spread (compilerOptions base')).
  split_and!.
  - rewrite (parseTsConfig_extends _ _ _ _ _ Hfile Hextends Hreference).
    rewrite Hparsed. cbn [mbind result_bind]. by rewrite Hrebase.
  - reflexivity.
  - intros key. cbn [mergeConfig props]. by rewrite lookup_merge, Hprops.
  - intros key Hkey. rewrite lookup_merge. unfold inherited.
    by rewrite (Hother key Hkey).
  - intros own Hown. rewrite lookup_merge. unfold inherited. by rewrite Hown.
  - intros url Hnone Hbase Hne. rewrite lookup_merge. unfold inherited.
    rewrite Hnone. by apply Hurl.
Qed.

Lemma C4_descendant_merged_over_ancestor_witness :
  ∃ merged options,
    parseTsConfig 2 libDisk "/app/tsconfig.json" = Ok (Some merged)
    ∧ compilerOptions merged = Some options
    ∧ options !! "baseUrl" = Some (JStr "shared/lib").
Proof.
  destruct (C4_descendant_merged_over_ancestor 1 libDisk "/app/tsconfig.json"
              (mkTsConfig (Some ∅) {[ "extends" := JStr "./shared/base" ]})
              "./shared/base"
              (Some (mkTsConfig (Some {[ "baseUrl" := JStr "./lib" ]}) ∅)))
    as (merged & options & Hrun & Hoptions & _ & _ & _ & Hurl).
  - by vm_compute.
  - by vm_compute.
  - discriminate.
  - by vm_compute.
  - intros v. vm_compute. intros [= <-]. by exists "./lib".
  - exists merged, options. split; [exact Hrun|]. split; [exact Hoptions|].
    apply (Hurl "./lib"); [by vm_compute | by vm_compute | discriminate].
Defined.

(** C4, as the claim has it, fails: an ancestor whose [baseUrl] is the
    empty string hands it down as it is, not joined to the directory of
    the reference. *)
Lemma C4_counterexample :
  ¬ (∀ fuel disk path cfg reference base url,
       disk !! path = Some (File (Doc cfg)) →
       props cfg !! "extends" = Some (JStr reference) →
       parseTsConfig fuel disk
         (extendedConfigPath disk path (withJsonSuffix reference))
         = Ok (Some base) →
       spread (compilerOptions cfg) !! "baseUrl" = None →
       spread (compilerOptions base) !! "baseUrl" = Some (JStr url) →
       ∃ merged options,
         parseTsConfig (S fuel) disk path = Ok (Some merged)
         ∧ compilerOptions merged = Some options
         ∧ options !! "baseUrl"
           = Some (JStr (Path.join
                           [Path.dirname (withJsonSuffix reference); url]))).
Proof.
  intros Hclaim.
  destruct (Hclaim 1 sharedDisk "/app/tsconfig.json"
              (mkTsConfig (Some ∅) {[ "extends" := JStr "./shared/base" ]})
              "./shared/base"
              (mkTsConfig (Some {[ "baseUrl" := JStr "" ]}) ∅) "")
    as (merged & options & Hrun & Hoptions & Hurl);
    [by vm_compute..|].
  vm_compute in Hrun. injection Hrun as <-.
  injection Hoptions as <-. vm_compute in Hurl. discriminate.
Qed.

(** * Paths *)

Lemma split_not_nil s : Path.split s ≠ [].
Proof.
  destruct s as [|c s]; simpl; [done|].
  destruct (Ascii.eqb c "/"); [done|]. by destruct (Path.split s).
Qed.

Lemma split_cons_slash s : Path.split (String "/" s) = "" :: Path.split s.
Proof. reflexivity. Qed.

Lemma split_app a b :
  Path.split (a +:+ "/" +:+ b) = Path.split a ++ Path.split b.
Proof.
  induction a as [|c a IH].
  - rewrite append_empty. reflexivity.
  - rewrite append_cons. simpl. rewrite IH.
    destruct (Ascii.eqb c "/"); [done|].
    pose proof (split_not_nil a). by destruct (Path.split a).
Qed.

Lemma split_slash_free s : Str.slash_free s = true → Path.split s = [s].
Proof.
  induction s as [|c s IH]; simpl; [done|].
  intros [Hc Hs]%andb_prop. apply negb_true_iff in Hc.
  by rewrite Hc, (IH Hs).
Qed.

Lemma split_parts_slash_free s :
  Forall (λ seg, Str.slash_free seg = true) (Path.split s).
Proof.
  induction s as [|c s IH]; simpl.
  - by repeat constructor.
  - destruct (Ascii.eqb c "/") eqn:Hc; [by constructor|].
    destruct (Path.split s) as [|seg segs].
    { constructor; [simpl; by rewrite Hc | constructor]. }
    apply Forall_cons in IH as [Hseg Hsegs]. constructor; [|done].
    simpl. by rewrite Hc, Hseg.
Qed.

Lemma unsplit_cons seg seg' segs :
  Path.unsplit (seg :: seg' :: segs)
  = seg +:+ "/" +:+ Path.unsplit (seg' :: segs).
Proof. reflexivity. Qed.

Lemma split_unsplit segs :
  segs ≠ [] →
  Forall (λ seg, Str.slash_free seg = true) segs →
  Path.split (Path.unsplit segs) = segs.
Proof.
  induction segs as [|seg [|seg' segs] IH]; [done| |].
  - intros _ [Hseg _]%Forall_cons. by apply split_slash_free.
  - intros _ [Hseg Hsegs]%Forall_cons.
    rewrite unsplit_cons, split_app, (split_slash_free _ Hseg), IH; done.
Qed.

Lemma append_assoc a b c : (a +:+ b) +:+ c = a +:+ b +:+ c.
Proof.
  induction a as [|x a IH]; [done|]. by rewrite !append_cons, IH.
Qed.

Lemma append_empty_r a : a +:+ "" = a.
Proof. induction a as [|x a IH]; [done|]. by rewrite append_cons, IH. Qed.

Lemma ends_with_slash_append a b :
  b ≠ "" → Str.ends_with_slash (a +:+ b) = Str.ends_with_slash b.
Proof.
  intros Hb. induction a as [|x a IH]; [done|].
  rewrite append_cons. simpl. rewrite IH.
  destruct (a +:+ b) eqn:E; [|done].
  destruct a, b; done.
Qed.

Lemma starts_with_slash_append a b :
  Str.starts_with_slash a = true → Str.starts_with_slash (a +:+ b) = true.
Proof. destruct a as [|c a]; [done|]. by rewrite append_cons. Qed.

Lemma is_empty_append a b :
  Str.is_empty a = false → Str.is_empty (a +:+ b) = false.
Proof. destruct a as [|c a]; [done|]. by rewrite append_cons. Qed.

Lemma is_empty_true s : Str.is_empty s = true ↔ s = "".
Proof. by destruct s. Qed.

Lemma push_segment_name allow stack seg :
  is_name seg → Path.push_segment allow stack seg = seg :: stack.
Proof.
  intros (H1 & H2 & H3 & _). unfold Path.push_segment.
  apply String.eqb_neq in H1, H2, H3. by rewrite H1, H2, H3.
Qed.

Lemma fold_push_names allow names stack :
  Forall is_name names →
  fold_left (Path.push_segment allow) names stack = rev names ++ stack.
Proof.
  revert stack. induction names as [|seg names IH]; intros stack; [done|].
  intros [Hseg Hnames]%Forall_cons. simpl.
  rewrite (push_segment_name _ _ _ Hseg), IH by done.
  by rewrite <- app_assoc.
Qed.

Lemma push_segment_keeps_names stack seg :
  Forall is_name stack →
  Str.slash_free seg = true →
  Forall is_name (Path.push_segment false stack seg).
Proof.
  intros Hstack Hseg. unfold Path.push_segment.
  destruct (String.eqb seg "") eqn:H1; [done|].
  destruct (String.eqb seg ".") eqn:H2; [done|]. cbn [orb].
  destruct (String.eqb seg "..") eqn:H3.
  - destruct stack as [|top below]; [done|].
    destruct (String.eqb top ".."); [done|].
    by apply Forall_cons in Hstack as [_ ?].
  - constructor; [|done]. apply String.eqb_neq in H1, H2, H3. by repeat split.
Qed.

Lemma fold_push_keeps_names segs stack :
  Forall is_name stack →
  Forall (λ seg, Str.slash_free seg = true) segs →
  Forall is_name (fold_left (Path.push_segment false) segs stack).
Proof.
  revert stack. induction segs as [|seg segs IH]; intros stack Hstack; [done|].
  intros [Hseg Hsegs]%Forall_cons. simpl. apply IH; [|done].
  by apply push_segment_keeps_names.
Qed.

Lemma push_segment_up stack :
  Forall is_name stack → Path.push_segment false stack ".." = tail stack.
Proof.
  intros Hstack. unfold Path.push_segment. cbn.
  destruct stack as [|top below]; [done|].
  apply Forall_cons in Hstack as [(_ & _ & Htop & _) _].
  apply String.eqb_neq in Htop. by rewrite Htop.
Qed.

Lemma unsplit_names_not_empty names :
  names ≠ [] → Forall is_name names →
  Str.is_empty (Path.unsplit names) = false.
Proof.
  destruct names as [|seg names]; [done|].
  intros _ [(Hseg & _) _]%Forall_cons.
  destruct names; [by destruct seg|].
  rewrite unsplit_cons. by destruct seg.
Qed.

Lemma climb_names directory : Forall is_name (climb directory).
Proof.
  unfold climb. apply Forall_rev.
  pose proof (fold_push_keeps_names (Path.split directory) [] (Forall_nil_2 _)
                (split_parts_slash_free directory)) as H.
  destruct (fold_left _ _ _); [done|]. by apply Forall_cons in H as [_ ?].
Qed.

(** Where [walkForTsConfig] goes from an absolute directory. *)
Lemma parentDirectory_absolute directory :
  Str.starts_with_slash directory = true →
  parentDirectory directory = rooted (climb directory).
Proof.
  intros Habs. unfold parentDirectory, Path.join.
  assert (directory ≠ "") as Hne by (by destruct directory).
  rewrite filter_cons_True by done.
  rewrite filter_cons_True by done. rewrite filter_nil.
  change (Path.unsplit [directory; "../"]) with (directory +:+ "/" +:+ "../").
  unfold Path.normalize.
  rewrite is_empty_append by (by destruct directory).
  rewrite starts_with_slash_append by done.
  rewrite ends_with_slash_append by done.
  change (Str.ends_with_slash ("/" +:+ "../")) with true. cbn [negb].
  unfold Path.normalizeString, Path.normalizeSegments.
  rewrite split_app. change (Path.split "../") with [".."; ""].
  rewrite fold_left_app. cbn [fold_left].
  pose proof (fold_push_keeps_names (Path.split directory) [] (Forall_nil_2 _)
                (split_parts_slash_free directory)) as Hnames.
  rewrite (push_segment_up _ Hnames).
  change (Path.push_segment false ?s "") with s.
  pose proof (climb_names directory) as Hclimb. unfold climb in *.
  destruct (rev (tail _)) as [|seg names] eqn:E; [done|].
  rewrite (unsplit_names_not_empty (seg :: names)) by done.
  reflexivity.
Qed.

Lemma rooted_absolute names : Str.starts_with_slash (rooted names) = true.
Proof. by destruct names. Qed.

Lemma rev_tail_rev {A} (l : list A) : rev (tail (rev l)) = removelast l.
Proof.
  induction l as [|x l _] using rev_ind; [done|].
  rewrite rev_unit, removelast_last. simpl. apply rev_involutive.
Qed.

Lemma names_slash_free names :
  Forall is_name names → Forall (λ seg, Str.slash_free seg = true) names.
Proof.
  intros H. eapply Forall_impl; [exact H|]. by intros seg (_ & _ & _ & ?).
Qed.

(** Going up from a directory printed by [path.join] drops its last
    name. *)
Lemma climb_rooted names :
  Forall is_name names → climb (rooted names) = removelast names.
Proof.
  intros Hnames. destruct names as [|seg names]; [done|].
  unfold climb, rooted.
  change ("/" +:+ ?s) with (String "/" s).
  rewrite split_cons_slash.
  rewrite <- (append_empty_r (Path.unsplit (seg :: names) +:+ "/")).
  rewrite append_assoc, split_app.
  rewrite split_unsplit by (done || by apply names_slash_free).
  change (Path.split "") with [""].
  cbn [fold_left]. change (Path.push_segment false [] "") with (@nil string).
  rewrite fold_left_app, (fold_push_names _ _ _ Hnames). cbn [fold_left].
  change (Path.push_segment false ?s "") with s.
  rewrite app_nil_r. apply rev_tail_rev.
Qed.

Lemma parentDirectory_rooted names :
  Forall is_name names →
  parentDirectory (rooted names) = rooted (removelast names).
Proof.
  intros Hnames.
  by rewrite parentDirectory_absolute, climb_rooted
    by (done || apply rooted_absolute).
Qed.

(** * Walking up to a configuration file *)

Lemma walkForTsConfig_found fuel disk directory configPath :
  configAt disk directory = Some configPath →
  walkForTsConfig (S fuel) disk directory = Ok (Some configPath).
Proof.
  unfold configAt. cbn [walkForTsConfig]. intros H.
  destruct (existsSync disk (Path.join [directory; "./tsconfig.json"]));
    [congruence|].
  destruct (existsSync disk (Path.join [directory; "./jsconfig.json"]));
    [congruence|done].
Qed.

Lemma walkForTsConfig_none fuel disk directory :
  configAt disk directory = None →
  walkForTsConfig (S fuel) disk directory
  = if String.eqb directory (parentDirectory directory) then Ok None
    else walkForTsConfig fuel disk (parentDirectory directory).
Proof.
  unfold configAt. cbn [walkForTsConfig]. intros H.
  destruct (existsSync disk (Path.join [directory; "./tsconfig.json"]));
    [done|].
  by destruct (existsSync disk (Path.join [directory; "./jsconfig.json"])).
Qed.

Lemma ancestor_parent n directory :
  ancestor n (parentDirectory directory) = ancestor (S n) directory.
Proof. unfold ancestor. by rewrite Nat.iter_succ_r. Qed.

(** The walk returns the configuration of the first directory that has
    one. *)
Lemma walkForTsConfig_first n : ∀ fuel disk directory configPath,
  (∀ i, i < n →
     configAt disk (ancestor i directory) = None
     ∧ ancestor (S i) directory ≠ ancestor i directory) →
  configAt disk (ancestor n directory) = Some configPath →
  n < fuel →
  walkForTsConfig fuel disk directory = Ok (Some configPath).
Proof.
  induction n as [|n IH]; intros fuel disk directory configPath Hbefore Hat Hfuel.
  - destruct fuel as [|fuel]; [lia|]. by apply walkForTsConfig_found.
  - destruct fuel as [|fuel]; [lia|].
    destruct (Hbefore 0) as [Hnone Hmoves]; [lia|].
    rewrite walkForTsConfig_none by done.
    assert (String.eqb directory (parentDirectory directory) = false) as ->.
    { apply String.eqb_neq. intros Heq. apply Hmoves. simpl. congruence. }
    apply IH; [|by rewrite ancestor_parent|lia].
    intros i Hi. rewrite !ancestor_parent. apply Hbefore. lia.
Qed.

(** From a directory printed by [path.join] the walk ends at the root. *)
Lemma walkForTsConfig_rooted disk : ∀ names,
  Forall is_name names →
  (∀ i, configAt disk (ancestor i (rooted names)) = None) →
  walkForTsConfig (S (length names)) disk (rooted names) = Ok None.
Proof.
  intros names. induction names as [|seg names IH] using rev_ind;
    intros Hnames Hnone.
  - rewrite walkForTsConfig_none by apply (Hnone 0). reflexivity.
  - rewrite walkForTsConfig_none by apply (Hnone 0).
    rewrite parentDirectory_rooted, removelast_last by done.
    destruct (String.eqb _ _); [done|].
    rewrite length_app, Nat.add_1_r.
    pose proof Hnames as [Hnames' _]%Forall_app. apply IH; [done|].
    intros i. specialize (Hnone (S i)).
    by rewrite <- ancestor_parent, parentDirectory_rooted, removelast_last
      in Hnone.
Qed.

(** A relative directory: the walk goes up for ever. *)

Lemma rev_replicate {A} n (x : A) : rev (replicate n x) = replicate n x.
Proof.
  induction n as [|n IH]; [done|]. simpl. rewrite IH.
  by rewrite <- replicate_S_end.
Qed.

Lemma fold_push_ups k j :
  fold_left (Path.push_segment true) (replicate k "..") (replicate j "..")
  = replicate (k + j) "..".
Proof.
  revert j. induction k as [|k IH]; intros j; [done|].
  simpl. replace (Path.push_segment true (replicate j "..") "..")
    with (replicate (S j) "..") by (by destruct j).
  rewrite IH. by replace (k + S j) with (S k + j) by lia.
Qed.

Lemma unsplit_ups_S n :
  Path.unsplit (replicate (S (S n)) "..")
  = ".." +:+ "/" +:+ Path.unsplit (replicate (S n) "..").
Proof. reflexivity. Qed.

Lemma unsplit_ups_head n :
  ∃ rest, Path.unsplit (replicate (S n) "..") = String "." rest.
Proof. destruct n; by eexists. Qed.

Lemma parentDirectory_ups n : parentDirectory (ups (S n)) = ups (S (S n)).
Proof.
  destruct (unsplit_ups_head n) as [rest Hrest].
  unfold parentDirectory, Path.join, ups.
  rewrite filter_cons_True by (rewrite Hrest; done).
  rewrite filter_cons_True by done. rewrite filter_nil.
  change (Path.unsplit [?d; "../"]) with (d +:+ "/" +:+ "../").
  unfold Path.normalize.
  rewrite is_empty_append by (rewrite Hrest; done).
  assert (Str.starts_with_slash
            ((Path.unsplit (replicate (S n) "..") +:+ "/") +:+ "/" +:+ "../")
          = false) as -> by (by rewrite Hrest).
  rewrite ends_with_slash_append by done.
  change (Str.ends_with_slash ("/" +:+ "../")) with true. cbn [negb].
  unfold Path.normalizeString, Path.normalizeSegments.
  rewrite split_app. change (Path.split "../") with [".."; ""].
  rewrite <- (append_empty_r (Path.unsplit (replicate (S n) "..") +:+ "/")).
  rewrite append_assoc, split_app.
  rewrite split_unsplit by (done || by apply Forall_replicate).
  change (Path.split "") with [""].
  rewrite !fold_left_app.
  pose proof (fold_push_ups (S n) 0) as Hfold.
  change (replicate 0 "..") with (@nil string) in Hfold.
  rewrite Hfold. cbn [fold_left].
  rewrite Nat.add_0_r.
  change (Path.push_segment true (replicate (S n) "..") "")
    with (replicate (S n) "..").
  change (Path.push_segment true (replicate (S n) "..") "..")
    with (replicate (S (S n)) "..").
  change (Path.push_segment true (replicate (S (S n)) "..") "")
    with (replicate (S (S n)) "..").
  rewrite rev_replicate.
  destruct (unsplit_ups_head (S n)) as [rest' Hrest'].
  by rewrite Hrest'.
Qed.

Lemma ups_longer n : ups (S n) ≠ ups (S (S n)).
Proof.
  intros H. apply (f_equal String.length) in H. unfold ups in H.
  rewrite unsplit_ups_S, !append_length in H. simpl in H. lia.
Qed.

Lemma configAt_empty directory : configAt ∅ directory = None.
Proof. reflexivity. Qed.

Lemma walkForTsConfig_ups fuel : ∀ n,
  walkForTsConfig fuel ∅ (ups (S n)) = Timeout.
Proof.
  induction fuel as [|fuel IH]; intros n; [done|].
  rewrite walkForTsConfig_none by apply configAt_empty.
  rewrite parentDirectory_ups.
  pose proof (ups_longer n) as Hne. apply String.eqb_neq in Hne.
  rewrite Hne. apply IH.
Qed.

(** C8, as the code has it.  In a directory that has [tsconfig.json] the
    walk returns it, whether or not [jsconfig.json] is there too, and
    returns [jsconfig.json] when it is there alone; in general it returns
    the configuration of the first directory on the way up that has one;
    and from an absolute directory with no configuration on the way up it
    returns nothing, after finitely many steps. *)
Theorem C8_walk_finds_first_config_upward disk directory :
  (∀ fuel,
     existsSync disk (Path.join [directory; "./tsconfig.json"]) = true →
     walkForTsConfig (S fuel) disk directory
     = Ok (Some (Path.join [directory; "./tsconfig.json"])))
  ∧ (∀ fuel,
       existsSync disk (Path.join [directory; "./tsconfig.json"]) = false →
       existsSync disk (Path.join [directory; "./jsconfig.json"]) = true →
       walkForTsConfig (S fuel) disk directory
       = Ok (Some (Path.join [directory; "./jsconfig.json"])))
  ∧ (∀ n configPath fuel,
       (∀ i, i < n →
          configAt disk (ancestor i directory) = None
          ∧ ancestor (S i) directory ≠ ancestor i directory) →
       configAt disk (ancestor n directory) = Some configPath →
       n < fuel →
       walkForTsConfig fuel disk directory = Ok (Some configPath))
  ∧ (Str.starts_with_slash directory = true →
     (∀ i, configAt disk (ancestor i directory) = None) →
     ∃ fuel, walkForTsConfig fuel disk directory = Ok None).
Proof.
  split_and!.
  - intros fuel Hts. apply walkForTsConfig_found.
    unfold configAt. by rewrite Hts.
  - intros fuel Hts Hjs. apply walkForTsConfig_found.
    unfold configAt. by rewrite Hts, Hjs.
  - intros n configPath fuel. apply walkForTsConfig_first.
  - intros Habs Hnone. exists (S (S (length (climb directory)))).
    rewrite walkForTsConfig_none by apply (Hnone 0).
    destruct (String.eqb _ _); [done|].
    rewrite parentDirectory_absolute by done.
    apply walkForTsConfig_rooted; [apply climb_names|].
    intros i. rewrite <- parentDirectory_absolute by done.
    rewrite ancestor_parent. apply Hnone.
Qed.

Lemma C8_walk_finds_first_config_upward_witness :
  walkForTsConfig 1 nestedDisk "/app" = Ok (Some "/app/tsconfig.json")
  ∧ walkForTsConfig 3 nestedDisk "/app/src/routes"
    = Ok (Some "/app/tsconfig.json")
  ∧ ∃ fuel, walkForTsConfig fuel ∅ "/app/src" = Ok None.
Proof.
  split_and!.
  - destruct (C8_walk_finds_first_config_upward nestedDisk "/app")
      as (Hts & _).
    apply (Hts 0). by vm_compute.
  - destruct (C8_walk_finds_first_config_upward nestedDisk "/app/src/routes")
      as (_ & _ & Hfirst & _).
    apply (Hfirst 2 "/app/tsconfig.json" 3).
    + intros i Hi. destruct i as [|[|i]]; [by vm_compute..|lia].
    + by vm_compute.
    + lia.
  - destruct (C8_walk_finds_first_config_upward ∅ "/app/src")
      as (_ & _ & _ & Hnone).
    apply Hnone; [reflexivity|]. intros i. apply configAt_empty.
Defined.

(** C8, as the claim has it, fails for a relative directory: from "." with
    no configuration file anywhere, the walk goes from "../" to "../../"
    and so on, and never returns. *)
Lemma C8_counterexample :
  ¬ (∀ disk directory,
       (∀ i, configAt disk (ancestor i directory) = None) →
       ∃ fuel, walkForTsConfig fuel disk directory = Ok None).
Proof.
  intros Hclaim.
  destruct (Hclaim ∅ "." (λ i, configAt_empty _)) as [fuel Hfuel].
  destruct fuel as [|fuel]; [done|].
  rewrite walkForTsConfig_none in Hfuel by apply configAt_empty.
  change (parentDirectory ".") with (ups 1) in Hfuel.
  change (String.eqb "." (ups 1)) with false in Hfuel.
  by rewrite walkForTsConfig_ups in Hfuel.
Qed.


(** * What a call to [writeConfigurationDefaults] comes to *)

Section Outcome.

Variable blue : string → string.
Variable bold : json → string.

Lemma requiredOf_not_mentioned key table :
  key ∉ table.*1 → requiredOf table !! key = None.
Proof.
  intros Hkey. unfold requiredOf. apply not_elem_of_list_to_map_1.
  intros Hin. apply Hkey.
  apply list_elem_of_fmap in Hin as ([k v] & -> & Hin).
  apply list_elem_of_omap in Hin as ([k' check] & Hin & Hsome).
  apply list_elem_of_fmap. exists (k', check). split; [|done].
  simpl in Hsome. by destruct check; simplify_eq.
Qed.

Lemma has_property_options options options' ps key :
  has_property (mkTsConfig (Some options) ps) key
  = has_property (mkTsConfig (Some options') ps) key.
Proof.
  reflexivity.
Qed.

Lemma omap_agree {A B} (f g : A → option B) (l : list A) :
  (∀ x, x ∈ l → f x = g x) → omap f l = omap g l.
Proof.
  induction l as [|x l IH]; intros H; [done|]. csimpl.
  rewrite (H x) by left. rewrite IH; [done|].
  intros y Hy. apply H. by right.
Qed.

Lemma pendingSuggestions_insert key value ps options table :
  key ∉ table.*1 →
  pendingSuggestions blue bold ps (<[key := value]> options) table
  = pendingSuggestions blue bold ps options table.
Proof.
  intros Hkey. unfold pendingSuggestions. apply omap_agree.
  intros [k check] Hin. cbn [fst snd].
  destruct check; [|done].
  rewrite lookup_insert_ne.
  - by rewrite (has_property_options _ options).
  - intros ->. apply Hkey. apply list_elem_of_fmap. by eexists (_, _).
Qed.

Lemma pendingChanges_insert key value options table :
  key ∉ table.*1 →
  pendingChanges blue bold (<[key := value]> options) table
  = pendingChanges blue bold options table.
Proof.
  intros Hkey. unfold pendingChanges. apply omap_agree.
  intros [k check] Hin. cbn [fst snd].
  destruct check; [done|].
  rewrite lookup_insert_ne; [done|].
  intros ->. apply Hkey. apply list_elem_of_fmap. by eexists (_, _).
Qed.

Lemma requiredOf_suggested key suggested table :
  requiredOf ((key, Suggested suggested) :: table) = requiredOf table.
Proof. reflexivity. Qed.

Lemma requiredOf_required key value reason table :
  requiredOf ((key, Required value reason) :: table)
  = <[key := value]> (requiredOf table).
Proof. reflexivity. Qed.

Lemma omap_cons_eq {A B} (f : A → option B) x (l : list A) :
  omap f (x :: l)
  = match f x with Some y => y :: omap f l | None => omap f l end.
Proof. reflexivity. Qed.

Lemma pendingSuggestions_required ps options key value reason table :
  pendingSuggestions blue bold ps options ((key, Required value reason) :: table)
  = pendingSuggestions blue bold ps options table.
Proof. reflexivity. Qed.

Lemma pendingSuggestions_suggested ps options key suggested table :
  pendingSuggestions blue bold ps options ((key, Suggested suggested) :: table)
  = (if negb (has_property (mkTsConfig (Some options) ps) key)
        && strict_equal None (options !! key)
     then [suggestedNote blue bold key suggested] else [])
    ++ pendingSuggestions blue bold ps options table.
Proof.
  unfold pendingSuggestions. rewrite omap_cons_eq. cbn [fst snd].
  by destruct (negb _ && strict_equal None (options !! key)).
Qed.

Lemma pendingChanges_suggested options key suggested table :
  pendingChanges blue bold options ((key, Suggested suggested) :: table)
  = pendingChanges blue bold options table.
Proof. reflexivity. Qed.

Lemma pendingChanges_required options key value reason table :
  pendingChanges blue bold options ((key, Required value reason) :: table)
  = (if strict_equal (Some value) (options !! key) then []
     else [requiredNote blue bold key value reason])
    ++ pendingChanges blue bold options table.
Proof.
  unfold pendingChanges. rewrite omap_cons_eq. cbn [fst snd].
  by destruct (strict_equal (Some value) (options !! key)).
Qed.

(** The loop over any table with distinct keys, in closed form. *)
Lemma loop_outcome ps w : ∀ table,
  NoDup table.*1 →
  ∀ options sa ra,
    for_each (checkOption blue bold) table
      (mkFrame (mkTsConfig (Some options) ps) sa ra w)
    = (Ok (),
       mkFrame (mkTsConfig (Some (requiredOf table ∪ options)) ps)
         (sa ++ pendingSuggestions blue bold ps options table)
         (ra ++ pendingChanges blue bold options table) w).
Proof.
  induction table as [|[key check] table IH]; intros Hnd options sa ra.
  - unfold requiredOf, pendingSuggestions, pendingChanges. csimpl.
    by rewrite (left_id_L ∅ (∪)), !app_nil_r.
  - rewrite fmap_cons in Hnd. apply NoDup_cons in Hnd as [Hkey Hnd].
    cbn [fst] in Hkey. rewrite for_each_cons.
    destruct check as [suggested|value reason].
    + erewrite bind_run by apply checkOption_suggested.
      rewrite (IH Hnd), requiredOf_suggested, pendingChanges_suggested,
        pendingSuggestions_suggested.
      destruct (negb _ && _); [by rewrite <- app_assoc | done].
    + erewrite bind_run by apply checkOption_required.
      rewrite requiredOf_required, pendingSuggestions_required,
        pendingChanges_required.
      destruct (strict_equal (Some value) (options !! key)) eqn:Hequal.
      * rewrite (IH Hnd). do 3 f_equal.
        apply strict_equal_true in Hequal.
        rewrite <- insert_union_l, insert_union_r
          by by apply requiredOf_not_mentioned.
        by rewrite insert_id.
      * rewrite (IH Hnd).
        rewrite pendingSuggestions_insert, pendingChanges_insert by done.
        rewrite <- insert_union_r by by apply requiredOf_not_mentioned.
        rewrite insert_union_l. by rewrite <- app_assoc.
Qed.

Lemma report_bullets configType cfg sa ra fs wr out :
  ∃ lines,
    report blue bold configType (mkFrame cfg sa ra (mkWorld fs wr out))
    = (Ok (), mkFrame cfg sa ra (mkWorld fs wr (out ++ lines)))
    ∧ ∀ note, note ∈ sa ++ ra → bullet note ∈ lines.
Proof.
  assert (Hblock : ∀ (header : string) notes out0,
    (log header ;;
     for_each (λ action, log (tab +:+ "- " +:+ action)) notes ;;
     log "") (mkFrame cfg sa ra (mkWorld fs wr out0))
    = (Ok (), mkFrame cfg sa ra
                (mkWorld fs wr (out0 ++ header :: (bullet <$> notes) ++ [""])))).
  { intros header notes out0.
    erewrite bind_run by apply log_run.
    erewrite bind_run
      by apply (for_each_log (λ action, tab +:+ "- " +:+ action)).
    rewrite log_run, <- !app_assoc. reflexivity. }
  assert (Hin : ∀ (header : string) notes note,
    note ∈ notes → bullet note ∈ header :: (bullet <$> notes) ++ [""]).
  { intros header notes note Hnote. right. apply elem_of_app. left.
    by apply list_elem_of_fmap_2. }
  unfold report, when. erewrite bind_run by reflexivity.
  cbn [suggestedActions requiredActions].
  destruct sa as [|s sa]; destruct ra as [|r ra]; cbn [length Nat.eqb negb].
  - exists []. split; [rewrite app_nil_r; reflexivity|].
    intros note Hnote. by apply elem_of_nil in Hnote.
  - erewrite bind_run by reflexivity. rewrite Hblock. eexists.
    split; [reflexivity|]. intros note Hnote. by apply Hin.
  - erewrite bind_run by apply Hblock. eexists.
    split; [reflexivity|].
    intros note Hnote. rewrite app_nil_r in Hnote. by apply Hin.
  - erewrite bind_run by apply Hblock. rewrite Hblock, <- app_assoc.
    eexists. split; [reflexivity|].
    intros note [Hnote|Hnote]%elem_of_app; apply elem_of_app;
      [left|right]; by apply Hin.
Qed.

(** A call on a configuration with [compilerOptions], in closed form. *)
Lemma reconcile_outcome path options ps sa ra fs wr out :
  let cfg' :=
    mkTsConfig (Some (requiredOptions ∪ options)) (withInclude ps) in
  let sa' := allSuggestions blue bold ps options in
  let ra' := pendingChanges blue bold options getDesiredCompilerOptions in
  ∃ w',
    writeConfigurationDefaults blue bold path
      (mkFrame (mkTsConfig (Some options) ps) sa ra (mkWorld fs wr out))
    = (Ok (), mkFrame cfg' sa' ra' w')
    ∧ ((sa' = [] ∧ ra' = [] ∧ w' = mkWorld fs wr out)
       ∨ ((sa' ≠ [] ∨ ra' ≠ [])
          ∧ ∃ lines,
              w' = mkWorld (<[path := File (Doc cfg')]> fs) (wr ++ [path])
                           (out ++ lines)
              ∧ ∀ note, note ∈ sa' ++ ra' → bullet note ∈ lines)).
Proof.
  intros cfg' sa' ra'.
  erewrite writeConfigurationDefaults_run
    by apply (loop_outcome ps _ _ policy_keys_distinct).
  rewrite defaultInclude_run. cbn [app].
  assert (has_property
            (mkTsConfig (Some (requiredOf getDesiredCompilerOptions ∪ options))
               ps) "include"
          = bool_decide (is_Some (ps !! "include"))) as ->.
  { unfold has_property. cbn [props compilerOptions String.eqb Ascii.eqb].
    apply orb_false_r. }
  assert ((if bool_decide (is_Some (ps !! "include"))
           then mkFrame
                  (mkTsConfig
                     (Some (requiredOf getDesiredCompilerOptions ∪ options)) ps)
                  (pendingSuggestions blue bold ps options
                     getDesiredCompilerOptions)
                  (pendingChanges blue bold options getDesiredCompilerOptions)
                  (mkWorld fs wr out)
           else mkFrame
                  (mkTsConfig
                     (compilerOptions
                        (mkTsConfig
                           (Some (requiredOf getDesiredCompilerOptions
                                    ∪ options)) ps))
                     (<["include" := includeDefault]>
                        (props
                           (mkTsConfig
                              (Some (requiredOf getDesiredCompilerOptions
                                       ∪ options)) ps))))
                  (pendingSuggestions blue bold ps options
                     getDesiredCompilerOptions ++ [includeNote blue bold])
                  (pendingChanges blue bold options getDesiredCompilerOptions)
                  (mkWorld fs wr out))
          = mkFrame cfg' sa' ra' (mkWorld fs wr out)) as ->.
  { unfold cfg', sa', ra', allSuggestions, withInclude, requiredOptions.
    destruct (bool_decide (is_Some (ps !! "include")));
      [by rewrite app_nil_r | done]. }
  cbn [snd]. clearbody cfg' sa' ra'.
  unfold persist. erewrite bind_run by reflexivity.
  cbn [suggestedActions requiredActions].
  destruct (report_bullets (Path.basename path) cfg' sa' ra'
              (<[path := File (Doc cfg')]> fs) (wr ++ [path]) out)
    as (lines & Hreport & Hlines).
  destruct sa' as [|s sa0]; destruct ra' as [|r ra0];
    cbn [length Nat.ltb Nat.leb andb].
  - eexists. split; [reflexivity|]. left. done.
  - eexists. split; [erewrite bind_run by reflexivity; exact Hreport|].
    right. split; [by right|]. by exists lines.
  - eexists. split; [erewrite bind_run by reflexivity; exact Hreport|].
    right. split; [by left|]. by exists lines.
  - eexists. split; [erewrite bind_run by reflexivity; exact Hreport|].
    right. split; [by left|]. by exists lines.
Qed.











End Outcome.

(** * What the walk returns *)

Lemma configAt_exists disk directory configPath :
  configAt disk directory = Some configPath →
  existsSync disk configPath = true
  ∧ (configPath = Path.join [directory; "./tsconfig.json"]
     ∨ configPath = Path.join [directory; "./jsconfig.json"]).
Proof.
  unfold configAt.
  destruct (existsSync disk (Path.join [directory; "./tsconfig.json"])) eqn:Hts.
  { intros [= <-]. split; [done | by left]. }
  destruct (existsSync disk (Path.join [directory; "./jsconfig.json"])) eqn:Hjs.
  { intros [= <-]. split; [done | by right]. }
  done.
Qed.

(** X7.  A path the walk returns is [tsconfig.json] or [jsconfig.json] in
    one of the directories on the way up, it exists, and no directory
    before that one has either file. *)
Theorem walk_returns_first_existing_config fuel disk directory configPath :
  walkForTsConfig fuel disk directory = Ok (Some configPath) →
  ∃ n,
    n < fuel
    ∧ existsSync disk configPath = true
    ∧ (configPath = Path.join [ancestor n directory; "./tsconfig.json"]
       ∨ (configPath = Path.join [ancestor n directory; "./jsconfig.json"]
          ∧ existsSync disk
              (Path.join [ancestor n directory; "./tsconfig.json"]) = false))
    ∧ ∀ i, i < n → configAt disk (ancestor i directory) = None.
Proof.
  revert directory. induction fuel as [|fuel IH]; intros directory; [done|].
  destruct (configAt disk directory) as [found|] eqn:Hat.
  - rewrite (walkForTsConfig_found _ _ _ _ Hat). intros [= ->].
    exists 0. split; [lia|].
    destruct (configAt_exists _ _ _ Hat) as [Hexists _].
    split; [done|]. split; [|intros i Hi; lia].
    revert Hat. unfold configAt. cbn [ancestor Nat.iter].
    destruct (existsSync disk (Path.join [directory; "./tsconfig.json"]))
      eqn:Hts; [intros [= <-]; by left|].
    destruct (existsSync disk (Path.join [directory; "./jsconfig.json"]));
      [intros [= <-]; right; by split | done].
  - rewrite (walkForTsConfig_none _ _ _ Hat).
    destruct (String.eqb _ _); [done|]. intros Hrun.
    destruct (IH _ Hrun) as (n & Hn & Hexists & Hname & Hbefore).
    exists (S n). rewrite <- !ancestor_parent.
    split; [lia|]. split; [done|]. split; [done|].
    intros [|i] Hi; [done|]. rewrite <- ancestor_parent. apply Hbefore. lia.
Qed.

Lemma walk_returns_first_existing_config_witness :
  ∃ n,
    n < 3
    ∧ existsSync nestedDisk "/app/tsconfig.json" = true
    ∧ ("/app/tsconfig.json"
       = Path.join [ancestor n "/app/src/routes"; "./tsconfig.json"]
       ∨ ("/app/tsconfig.json"
          = Path.join [ancestor n "/app/src/routes"; "./jsconfig.json"]
          ∧ existsSync nestedDisk
              (Path.join [ancestor n "/app/src/routes"; "./tsconfig.json"])
            = false))
    ∧ ∀ i, i < n → configAt nestedDisk (ancestor i "/app/src/routes") = None.
Proof.
  apply (walk_returns_first_existing_config 3 nestedDisk "/app/src/routes"
           "/app/tsconfig.json").
  by vm_compute.
Defined.

(** X8.  When the walk returns nothing it has reached a directory that is
    its own parent, and neither that directory nor any before it has a
    configuration file. *)
Theorem walk_returns_nothing_only_at_the_top fuel disk directory :
  walkForTsConfig fuel disk directory = Ok None →
  ∃ n,
    n < fuel
    ∧ parentDirectory (ancestor n directory) = ancestor n directory
    ∧ ∀ i, i ≤ n → configAt disk (ancestor i directory) = None.
Proof.
  revert directory. induction fuel as [|fuel IH]; intros directory; [done|].
  destruct (configAt disk directory) as [found|] eqn:Hat.
  { by rewrite (walkForTsConfig_found _ _ _ _ Hat). }
  rewrite (walkForTsConfig_none _ _ _ Hat).
  destruct (String.eqb directory (parentDirectory directory)) eqn:Htop.
  - intros _. apply String.eqb_eq in Htop. exists 0.
    split; [lia|]. split; [done|]. intros i Hi.
    by replace i with 0 by lia.
  - intros Hrun. destruct (IH _ Hrun) as (n & Hn & Hstop & Hnone).
    exists (S n). rewrite <- !ancestor_parent.
    split; [lia|]. split; [done|].
    intros [|i] Hi; [done|]. rewrite <- ancestor_parent. apply Hnone. lia.
Qed.

Lemma walk_returns_nothing_only_at_the_top_witness :
  ∃ n,
    n < 3
    ∧ parentDirectory (ancestor n "/app") = ancestor n "/app"
    ∧ ∀ i, i ≤ n → configAt ∅ (ancestor i "/app") = None.
Proof.
  apply (walk_returns_nothing_only_at_the_top 3 ∅ "/app").
  by vm_compute.
Defined.


(** * More about parsing *)

(** X9.  A document without [extends], or whose [extends] is falsy (null,
    false, zero, the empty string), is returned as it is. *)
Theorem parse_without_extends_returns_document fuel disk path cfg :
  disk !! path = Some (File (Doc cfg)) →
  (∀ v, props cfg !! "extends" = Some v → truthy v = false) →
  parseTsConfig (S fuel) disk path = Ok (Some cfg).
Proof.
  intros Hfile Hfalsy. cbn [parseTsConfig].
  rewrite (existsSync_true _ _ _ Hfile). cbn [negb].
  unfold readConfig. rewrite Hfile. cbn [mbind result_bind].
  destruct (props cfg !! "extends") as [v|]; [|done].
  by rewrite (Hfalsy v eq_refl).
Qed.

Lemma parse_without_extends_returns_document_witness :
  parseTsConfig 1 emptyExtendsDisk "/app/tsconfig.json"
  = Ok (Some emptyExtendsConfig).
Proof.
  apply (parse_without_extends_returns_document 0 emptyExtendsDisk
           "/app/tsconfig.json" emptyExtendsConfig).
  - by vm_compute.
  - intros v. vm_compute. by intros [= <-].
Defined.

(** X10.  An exception raised while the ancestor is parsed (its text is no
    JSON, say) is the outcome of parsing the descendant: nothing is
    recovered. *)
Theorem parse_failure_of_ancestor_is_fatal fuel disk path cfg reference e :
  disk !! path = Some (File (Doc cfg)) →
  props cfg !! "extends" = Some (JStr reference) →
  reference ≠ "" →
  parseTsConfig fuel disk
    (extendedConfigPath disk path (withJsonSuffix reference)) = Throw e →
  parseTsConfig (S fuel) disk path = Throw e.
Proof.
  intros Hfile Hextends Hreference Hancestor.
  rewrite (parseTsConfig_extends _ _ _ _ _ Hfile Hextends Hreference).
  by rewrite Hancestor.
Qed.

Lemma parse_failure_of_ancestor_is_fatal_witness :
  parseTsConfig 2 brokenBaseDisk "/app/tsconfig.json" = Throw SyntaxError.
Proof.
  apply (parse_failure_of_ancestor_is_fatal 1 brokenBaseDisk
           "/app/tsconfig.json"
           (mkTsConfig (Some ∅) {[ "extends" := JStr "./base" ]}) "./base").
  - by vm_compute.
  - by vm_compute.
  - discriminate.
  - by vm_compute.
Defined.

(** X11.  An [extends] that is truthy but no string (a number, [true], an
    array, an object) makes parsing throw a [TypeError]. *)
Theorem parse_extends_must_be_a_string fuel disk path cfg v :
  disk !! path = Some (File (Doc cfg)) →
  props cfg !! "extends" = Some v →
  truthy v = true →
  (∀ s, v ≠ JStr s) →
  parseTsConfig (S fuel) disk path = Throw TypeError.
Proof.
  intros Hfile Hextends Htruthy Hkind. cbn [parseTsConfig].
  rewrite (existsSync_true _ _ _ Hfile). cbn [negb].
  unfold readConfig. rewrite Hfile. cbn [mbind result_bind].
  rewrite Hextends, Htruthy. destruct v; try done. by destruct (Hkind s).
Qed.

Lemma parse_extends_must_be_a_string_witness :
  parseTsConfig 1 numericExtendsDisk "/app/tsconfig.json" = Throw TypeError.
Proof.
  apply (parse_extends_must_be_a_string 0 numericExtendsDisk
           "/app/tsconfig.json" (mkTsConfig None {[ "extends" := JNum 1 ]})
           (JNum 1)).
  - by vm_compute.
  - by vm_compute.
  - reflexivity.
  - discriminate.
Defined.

(** X12.  There is no guard against a cycle: a configuration whose
    reference stands for the configuration itself is parsed again and
    again, and no budget is enough for a result. *)
Theorem parse_of_self_extending_config_never_returns
    disk path cfg reference :
  disk !! path = Some (File (Doc cfg)) →
  props cfg !! "extends" = Some (JStr reference) →
  reference ≠ "" →
  extendedConfigPath disk path (withJsonSuffix reference) = path →
  ∀ fuel, parseTsConfig fuel disk path = Timeout.
Proof.
  intros Hfile Hextends Hreference Hself fuel.
  induction fuel as [|fuel IH]; [done|].
  rewrite (parseTsConfig_extends _ _ _ _ _ Hfile Hextends Hreference).
  by rewrite Hself, IH.
Qed.

Lemma parse_of_self_extending_config_never_returns_witness :
  parseTsConfig 1000 loopDisk "/app/tsconfig.json" = Timeout.
Proof.
  refine (parse_of_self_extending_config_never_returns loopDisk
            "/app/tsconfig.json"
            (mkTsConfig (Some ∅) {[ "extends" := JStr "./tsconfig" ]})
            "./tsconfig" _ _ _ _ 1000).
  - by vm_compute.
  - by vm_compute.
  - discriminate.
  - by vm_compute.
Defined.



Lemma prefix_empty s : String.prefix "" s = true.
Proof. by destruct s. Qed.

Lemma includes_slash s : Str.includes "/" s = negb (Str.slash_free s).
Proof.
  induction s as [|c s IH]; [done|].
  rewrite includes_cons, IH. cbn [Str.slash_free String.prefix].
  destruct (ascii_dec "/" c) as [<-|Hne].
  - by rewrite prefix_empty.
  - assert (Ascii.eqb c "/" = false) as -> by (by apply Ascii.eqb_neq).
    done.
Qed.

Lemma slash_free_append a b :
  Str.slash_free (a +:+ b) = Str.slash_free a && Str.slash_free b.
Proof.
  induction a as [|c a IH]; [done|].
  rewrite append_cons. cbn [Str.slash_free]. by rewrite IH, andb_assoc.
Qed.

Lemma withJsonSuffix_occurs reference :
  occurs_in ".json" (withJsonSuffix reference).
Proof.
  unfold withJsonSuffix.
  destruct (Str.includes ".json" reference) eqn:H; cbn [negb].
  - by apply includes_occurs.
  - exists reference, "". by rewrite append_empty_r.
Qed.

(** X14.  After the suffix rule ".json" occurs in the reference, so the
    rule changes nothing when applied again, and the test for a dot in the
    choice of the file always holds: the file under [node_modules] is taken
    exactly when the reference has a slash and there is no file at the path
    next to the configuration. *)
Theorem suffixed_reference_resolution disk path reference :
  occurs_in ".json" (withJsonSuffix reference)
  ∧ withJsonSuffix (withJsonSuffix reference) = withJsonSuffix reference
  ∧ extendedConfigPath disk path (withJsonSuffix reference)
    = (if Str.includes "/" reference
          && negb (existsSync disk
                     (Path.join [Path.dirname path; withJsonSuffix reference]))
       then Path.join [Path.dirname path; "node_modules";
                       withJsonSuffix reference]
       else Path.join [Path.dirname path; withJsonSuffix reference]).
Proof.
  pose proof (withJsonSuffix_occurs reference) as Hoccurs.
  split; [done|]. split.
  - unfold withJsonSuffix at 1.
    by rewrite (proj2 (includes_occurs _ _) Hoccurs).
  - unfold extendedConfigPath.
    assert (Str.includes "." (withJsonSuffix reference) = true) as ->.
    { apply includes_occurs. destruct Hoccurs as (before & after & ->).
      by exists before, ("json" +:+ after). }
    assert (Str.includes "/" (withJsonSuffix reference)
            = Str.includes "/" reference) as ->.
    { unfold withJsonSuffix. destruct (negb _); [|done].
      by rewrite !includes_slash, slash_free_append, andb_true_r. }
    by rewrite andb_true_r.
Qed.


(** * More about the loader *)

Lemma reconcile_without_options blue bold path cfg sa ra w :
  compilerOptions cfg = None →
  writeConfigurationDefaults blue bold path (mkFrame cfg sa ra w)
  = (Throw TypeError, mkFrame cfg [] [] w).
Proof.
  intros Hnone. unfold writeConfigurationDefaults.
  erewrite bind_run by reflexivity. cbn [config world].
  apply bind_throw. apply loop_throws; [done|].
  exists "esModuleInterop", (JBool true), "requirement for esbuild".
  unfold getDesiredCompilerOptions. rewrite !elem_of_cons. tauto.
Qed.

Lemma is_empty_false s : s ≠ "" → Str.is_empty s = false.
Proof. by destruct s. Qed.

(** X15.  When a configuration with [compilerOptions] is found and parsed,
    the loader returns its path together with [baseUrl] and [paths] exactly
    as parsing gave them (undefined when the configuration has none: the
    suggested [baseUrl] is not in the result).  On the way at most one file
    is written, the configuration itself. *)
Theorem loadSync_returns_parsed_baseUrl_and_paths
    blue bold pwd fuel cwd w configPath cfg options :
  resolveConfigPath pwd fuel w cwd = Ok (Some configPath) →
  configPath ≠ "" →
  parseTsConfig fuel (files w) configPath = Ok (Some cfg) →
  compilerOptions cfg = Some options →
  ∃ w',
    loadSync blue bold pwd fuel cwd w
    = (Ok {| tsConfigPath := Some configPath;
             baseUrl := options !! "baseUrl";
             paths := options !! "paths" |}, w')
    ∧ (written w' = written w ∨ written w' = written w ++ [configPath])
    ∧ ∀ other, other ≠ configPath → files w' !! other = files w !! other.
Proof.
  intros Hresolve Hpath Hparse Hoptions.
  destruct cfg as [o ps]. cbn [compilerOptions] in Hoptions. subst o.
  destruct w as [fs wr out].
  destruct (reconcile_outcome blue bold configPath options ps [] [] fs wr out)
    as (w' & Hrun & Hworld).
  exists w'. split.
  - unfold loadSync. rewrite Hresolve, (is_empty_false _ Hpath), Hparse, Hrun.
    cbn [config compilerOptions mbind option_bind world].
    by rewrite !lookup_union, (left_id_L None _), (left_id_L None _).
  - destruct Hworld as [(_ & _ & ->)|(_ & lines & -> & _)];
      cbn [written files].
    + split; [by left | done].
    + split; [by right|]. intros other Hother. by rewrite lookup_insert_ne.
Qed.

Lemma loadSync_returns_parsed_baseUrl_and_paths_witness :
  ∃ w',
    loadSync plain display "/" 2 "/app" aliasProject
    = (Ok {| tsConfigPath := Some "/app/tsconfig.json";
             baseUrl := aliasOptions !! "baseUrl";
             paths := aliasOptions !! "paths" |}, w')
    ∧ (written w' = written aliasProject
       ∨ written w' = written aliasProject ++ ["/app/tsconfig.json"])
    ∧ ∀ other, other ≠ "/app/tsconfig.json" →
        files w' !! other = files aliasProject !! other.
Proof.
  apply (loadSync_returns_parsed_baseUrl_and_paths plain display "/" 2 "/app"
           aliasProject "/app/tsconfig.json"
           (mkTsConfig (Some aliasOptions) ∅) aliasOptions).
  - by vm_compute.
  - discriminate.
  - by vm_compute.
  - reflexivity.
Defined.

(** X16.  When the configuration that is found and parsed has no
    [compilerOptions] (the document is the empty object, say), the loader
    throws a [TypeError]; nothing is written or printed. *)
Theorem loadSync_throws_without_compilerOptions
    blue bold pwd fuel cwd w configPath cfg :
  resolveConfigPath pwd fuel w cwd = Ok (Some configPath) →
  configPath ≠ "" →
  parseTsConfig fuel (files w) configPath = Ok (Some cfg) →
  compilerOptions cfg = None →
  loadSync blue bold pwd fuel cwd w = (Throw TypeError, w).
Proof.
  intros Hresolve Hpath Hparse Hnone. unfold loadSync.
  rewrite Hresolve, (is_empty_false _ Hpath), Hparse.
  by rewrite (reconcile_without_options _ _ _ _ _ _ _ Hnone).
Qed.

Lemma loadSync_throws_without_compilerOptions_witness :
  loadSync plain display "/" 2 "/app" emptyObjectProject
  = (Throw TypeError, emptyObjectProject).
Proof.
  apply (loadSync_throws_without_compilerOptions plain display "/" 2 "/app"
           emptyObjectProject "/app/tsconfig.json" emptyConfig).
  - by vm_compute.
  - discriminate.
  - by vm_compute.
  - reflexivity.
Defined.

Lemma walkForTsConfig_absolute_ends disk directory :
  Str.starts_with_slash directory = true →
  (∀ i, configAt disk (ancestor i directory) = None) →
  walkForTsConfig (S (S (length (climb directory)))) disk directory = Ok None.
Proof.
  intros Habs Hnone.
  rewrite walkForTsConfig_none by apply (Hnone 0).
  destruct (String.eqb _ _); [done|].
  rewrite parentDirectory_absolute by done.
  apply walkForTsConfig_rooted; [apply climb_names|].
  intros i. rewrite <- parentDirectory_absolute by done.
  rewrite ancestor_parent. apply Hnone.
Qed.

(** X17.  For an absolute directory with no configuration file in it or
    above it, the loader returns, with enough budget, the result without
    path, [baseUrl] and [paths], and the files and the console are as they
    were. *)
Theorem loadSync_finds_nothing_above_bare_directory blue bold pwd cwd w :
  files w !! cwd = Some Dir →
  Str.starts_with_slash cwd = true →
  (∀ i, configAt (files w) (ancestor i cwd) = None) →
  ∃ fuel, loadSync blue bold pwd fuel cwd w = (Ok noConfig, w).
Proof.
  intros Hdir Habs Hnone. exists (S (S (length (climb cwd)))).
  unfold loadSync, resolveConfigPath. rewrite Hdir.
  by rewrite (walkForTsConfig_absolute_ends _ _ Habs Hnone).
Qed.

Lemma loadSync_finds_nothing_above_bare_directory_witness :
  ∃ fuel, loadSync plain display "/" fuel "/" rootOnly = (Ok noConfig, rootOnly).
Proof.
  apply (loadSync_finds_nothing_above_bare_directory plain display "/" "/"
           rootOnly).
  - by vm_compute.
  - reflexivity.
  - intros i. assert (ancestor i "/" = "/") as ->; [|by vm_compute].
    induction i as [|i IH]; [done|].
    change (ancestor (S i) "/") with (parentDirectory (ancestor i "/")).
    rewrite IH. by vm_compute.
Defined.


Lemma normalize_not_empty path : Path.normalize path ≠ "".
Proof.
  unfold Path.normalize.
  destruct (Str.is_empty path); [done|].
  destruct (Str.is_empty (Path.normalizeString path _)) eqn:Hp.
  { by repeat case_match. }
  destruct (Path.normalizeString path _) as [|c p]; [done|].
  by repeat case_match.
Qed.

Lemma join_not_empty args : Path.join args ≠ "".
Proof.
  unfold Path.join. destruct (filter _ args); [done|].
  apply normalize_not_empty.
Qed.

(** X18.  Rebasing composes along a chain.  When the configuration and its
    parent have no [baseUrl] of their own and the grandparent's is a string
    that is not empty, the [baseUrl] of the result is the grandparent's,
    joined to the directory of the parent's reference and then to the
    directory of the configuration's reference. *)
Theorem baseUrl_is_rebased_at_every_level
    fuel disk path cfg reference parent reference' grand url :
  disk !! path = Some (File (Doc cfg)) →
  props cfg !! "extends" = Some (JStr reference) →
  reference ≠ "" →
  let parentPath := extendedConfigPath disk path (withJsonSuffix reference) in
  disk !! parentPath = Some (File (Doc parent)) →
  props parent !! "extends" = Some (JStr reference') →
  reference' ≠ "" →
  parseTsConfig fuel disk
    (extendedConfigPath disk parentPath (withJsonSuffix reference'))
    = Ok (Some grand) →
  spread (compilerOptions grand) !! "baseUrl" = Some (JStr url) →
  url ≠ "" →
  spread (compilerOptions parent) !! "baseUrl" = None →
  spread (compilerOptions cfg) !! "baseUrl" = None →
  ∃ merged options,
    parseTsConfig (S (S fuel)) disk path = Ok (Some merged)
    ∧ compilerOptions merged = Some options
    ∧ options !! "baseUrl"
      = Some (JStr (Path.join
                      [Path.dirname (withJsonSuffix reference);
                       Path.join [Path.dirname (withJsonSuffix reference');
                                  url]])).
Proof.
  intros Hfile Hextends Hreference parentPath Hparent Hextends' Hreference'
    Hgrand Hurl Hne Hparent_none Hcfg_none.
  rewrite (parseTsConfig_extends _ _ _ _ _ Hfile Hextends Hreference).
  fold parentPath.
  rewrite (parseTsConfig_extends _ _ _ _ _ Hparent Hextends' Hreference').
  rewrite Hgrand. cbn [mbind result_bind default from_option id].
  destruct (rebaseBaseUrl_typed (withJsonSuffix reference') grand)
    as (grand' & -> & _ & _ & Hgrand' & _).
  { intros v. rewrite Hurl. intros [= <-]. by eexists. }
  specialize (Hgrand' url Hurl Hne).
  cbn [mbind result_bind default from_option id].
  set (middle := mergeConfig grand' parent).
  assert (spread (compilerOptions middle) !! "baseUrl"
          = Some (JStr (Path.join [Path.dirname (withJsonSuffix reference');
                                   url]))) as Hmiddle.
  { unfold middle. cbn [mergeConfig compilerOptions spread default
                          from_option id].
    by rewrite lookup_union, Hparent_none, (left_id_L None _). }
  destruct (rebaseBaseUrl_typed (withJsonSuffix reference) middle)
    as (middle' & -> & _ & _ & Hmiddle' & _).
  { intros v. rewrite Hmiddle. intros [= <-]. by eexists. }
  specialize (Hmiddle' _ Hmiddle (join_not_empty _)).
  eexists _, _. split; [reflexivity|]. split; [reflexivity|].
  by rewrite lookup_union, Hcfg_none, (left_id_L None _).
Qed.

Lemma baseUrl_is_rebased_at_every_level_witness :
  ∃ merged options,
    parseTsConfig 3 chainDisk "/app/tsconfig.json" = Ok (Some merged)
    ∧ compilerOptions merged = Some options
    ∧ options !! "baseUrl"
      = Some (JStr (Path.join
                      [Path.dirname (withJsonSuffix "./shared/base");
                       Path.join
                         [Path.dirname (withJsonSuffix "./presets/root");
                          "./lib"]])).
Proof.
  apply (baseUrl_is_rebased_at_every_level 1 chainDisk "/app/tsconfig.json"
           (mkTsConfig (Some ∅) {[ "extends" := JStr "./shared/base" ]})
           "./shared/base"
           (mkTsConfig None {[ "extends" := JStr "./presets/root" ]})
           "./presets/root"
           (mkTsConfig (Some {[ "baseUrl" := JStr "./lib" ]}) ∅) "./lib").
  - by vm_compute.
  - by vm_compute.
  - discriminate.
  - by vm_compute.
  - by vm_compute.
  - discriminate.
  - by vm_compute.
  - by vm_compute.
  - discriminate.
  - by vm_compute.
  - by vm_compute.
Defined.

(** X19.  What the loader writes is the configuration as parsing returned
    it, ancestors merged in, with the required options laid over it and
    [include] defaulted: either nothing at all is written, or the file at
    the configuration path holds exactly that document. *)
Theorem loadSync_writes_the_merged_configuration
    blue bold pwd fuel cwd w configPath cfg options :
  resolveConfigPath pwd fuel w cwd = Ok (Some configPath) →
  configPath ≠ "" →
  parseTsConfig fuel (files w) configPath = Ok (Some cfg) →
  compilerOptions cfg = Some options →
  ∃ r w',
    loadSync blue bold pwd fuel cwd w = (Ok r, w')
    ∧ (w' = w
       ∨ (written w' = written w ++ [configPath]
          ∧ files w' !! configPath
            = Some (File (Doc (mkTsConfig (Some (requiredOptions ∪ options))
                                 (withInclude (props cfg))))))).
Proof.
  intros Hresolve Hpath Hparse Hoptions.
  destruct cfg as [o ps]. cbn [compilerOptions props] in *. subst o.
  destruct w as [fs wr out].
  destruct (reconcile_outcome blue bold configPath options ps [] [] fs wr out)
    as (w' & Hrun & Hworld).
  eexists _, w'. split.
  - unfold loadSync. rewrite Hresolve, (is_empty_false _ Hpath), Hparse, Hrun.
    reflexivity.
  - destruct Hworld as [(_ & _ & ->)|(_ & lines & -> & _)]; [by left|].
    right. cbn [written files]. split; [done|]. apply lookup_insert_eq.
Qed.

Lemma loadSync_writes_the_merged_configuration_witness :
  ∃ r w',
    loadSync plain display "/" 2 "/app" libProject = (Ok r, w')
    ∧ (w' = libProject
       ∨ (written w' = written libProject ++ ["/app/tsconfig.json"]
          ∧ files w' !! "/app/tsconfig.json"
            = Some (File (Doc (mkTsConfig
                                 (Some (requiredOptions
                                          ∪ {[ "baseUrl" := JStr "shared/lib" ]}))
                                 (withInclude
                                    {[ "extends" := JStr "./shared/base" ]})))))).
Proof.
  pose proof
    (loadSync_writes_the_merged_configuration plain display "/" 2 "/app"
       libProject "/app/tsconfig.json"
       (mkTsConfig (Some {[ "baseUrl" := JStr "shared/lib" ]})
                   {[ "extends" := JStr "./shared/base" ]})
       {[ "baseUrl" := JStr "shared/lib" ]}) as H.
  cbn [props] in H. apply H.
  - by vm_compute.
  - discriminate.
  - by vm_compute.
  - reflexivity.
Defined.
